(** * snapraid-runner: a shallow embedding of [snapraid-runner.py]

    The script loads a YAML configuration, sets up logging, and then drives
    the external [snapraid] executable through touch, diff, sync and scrub,
    ending every run in [finish], which notifies and exits.

    Modelling choices, all taken from the source:
    - option values are the YAML scalars the script can meet: null, booleans,
      integers and strings ([pyval]); floating-point and container option
      values are not represented;
    - a Python [str] is a Rocq [string], read as a sequence of code points
      below 256;
    - the two-level [config] dictionary is a [gmap] of [gmap]s whose inner
      reads default to the empty string (the [defaultdict] of the source);
    - effects are a writer over an event trace with Python's exceptions as
      the error part ([M]); [SystemExit] is kept apart from the [Exception]
      subclasses because [except Exception] does not catch it;
    - the file system, the YAML parser, the logging handlers, the child
      process and the notification library are an [environment] of oracles. *)

From Stdlib Require Import ZArith String Ascii DecimalString List Permutation.
From stdpp Require Import gmap strings list.

Open Scope Z_scope.
Open Scope string_scope.

(** ** Python values and the string primitives the script uses *)

Module Py.

Inductive pyval :=
| PyNone
| PyBool (b : bool)
| PyInt (z : Z)
| PyStr (s : string).

#[global] Instance pyval_eq_dec : EqDecision pyval.
Proof. solve_decision. Defined.

#[global] Instance pyval_inhabited : Inhabited pyval := populate (PyStr "").

(** Subclasses of [Exception] that the script or its collaborators raise. *)
Inductive exception :=
| TypeError
| ValueError
| KeyError
| AttributeError
| OSError
| CalledProcessError (ret : Z) (cmd : string)
| OtherError (name : string).

#[global] Instance exception_eq_dec : EqDecision exception.
Proof. solve_decision. Defined.

(** [isinstance(v, int)]: [bool] is a subclass of [int]. *)
Definition isinstance_int (v : pyval) : bool :=
  match v with PyInt _ | PyBool _ => true | _ => false end.

(** [isinstance(v, bool)]. *)
Definition isinstance_bool (v : pyval) : bool :=
  match v with PyBool _ => true | _ => false end.

(** Truth value of [v] in an [if]. *)
Definition truthy (v : pyval) : bool :=
  match v with
  | PyNone => false
  | PyBool b => b
  | PyInt z => negb (z =? 0)%Z
  | PyStr s => negb (String.eqb s "")
  end.

(** The integer an [int] instance stands for in arithmetic and comparisons. *)
Definition int_value (v : pyval) : option Z :=
  match v with
  | PyInt z => Some z
  | PyBool b => Some (if b then 1 else 0)
  | _ => None
  end.

(** [str(v)]. *)
Definition str (v : pyval) : string :=
  match v with
  | PyNone => "None"
  | PyBool true => "True"
  | PyBool false => "False"
  | PyInt z => NilZero.string_of_int (Z.to_int z)
  | PyStr s => s
  end.

Definition str_of_nat (n : nat) : string := str (PyInt (Z.of_nat n)).

(** [c.isspace()] for a code point below 256. *)
Definition isspace (c : ascii) : bool :=
  let n := nat_of_ascii c in
  ((9 <=? n) && (n <=? 13) || (28 <=? n) && (n <=? 32)
   || (n =? 133) || (n =? 160))%nat.

(** [s.rstrip()]: drop every trailing whitespace character. *)
Fixpoint rstrip (s : string) : string :=
  match s with
  | EmptyString => EmptyString
  | String c r =>
      match rstrip r with
      | EmptyString => if isspace c then EmptyString else String c EmptyString
      | r' => String c r'
      end
  end.

(** [s.lstrip()]. *)
Fixpoint lstrip (s : string) : string :=
  match s with
  | EmptyString => EmptyString
  | String c r => if isspace c then lstrip r else s
  end.

(** [s.split(" ")[0]]: the text before the first space character, the
    whole string when it has none. *)
Fixpoint split_space_head (s : string) : string :=
  match s with
  | EmptyString => EmptyString
  | String c r => if Ascii.eqb c " " then EmptyString else String c (split_space_head r)
  end.

(** [sub in s] for two strings: substring search. *)
Fixpoint contains (sub s : string) : bool :=
  String.prefix sub s
  || match s with
     | EmptyString => false
     | String _ r => contains sub r
     end.

(** [x in v] for a string [x] and a scalar [v]: substring search when [v]
    is a string; null, booleans and integers are not iterable. Sequences
    and mappings, on which [in] is membership, are outside [pyval]. *)
Definition py_in (x : string) (v : pyval) : exception + bool :=
  match v with
  | PyStr s => inr (contains x s)
  | _ => inl TypeError
  end.

Definition digit_value (c : ascii) : option Z :=
  let n := nat_of_ascii c in
  if ((48 <=? n) && (n <=? 57))%nat then Some (Z.of_nat n - 48) else None.

(** Decimal digits with single underscores between digits, as [int()]
    accepts them; [prev] tells whether the previous character was a digit. *)
Fixpoint int_digits (prev : bool) (acc : Z) (s : string) : option Z :=
  match s with
  | EmptyString => if prev then Some acc else None
  | String c r =>
      match digit_value c with
      | Some d => int_digits true (10 * acc + d) r
      | None => if Ascii.eqb c "_" && prev then int_digits false acc r else None
      end
  end.

(** What [int()] skips around the digits of a string: the ASCII whitespace
    characters, and the two other whitespace characters below 256 (133 and
    160), which it first turns into spaces. The separators 28 to 31 are
    whitespace for [isspace] but not for [int()]. *)
Definition int_space (c : ascii) : bool :=
  let n := nat_of_ascii c in
  ((9 <=? n) && (n <=? 13) || (n =? 32) || (n =? 133) || (n =? 160))%nat.

Fixpoint skip_leading (s : string) : string :=
  match s with
  | EmptyString => EmptyString
  | String c r => if int_space c then skip_leading r else s
  end.

Fixpoint skip_trailing (s : string) : string :=
  match s with
  | EmptyString => EmptyString
  | String c r =>
      match skip_trailing r with
      | EmptyString => if int_space c then EmptyString else String c EmptyString
      | r' => String c r'
      end
  end.

(** [sys.int_info.default_max_str_digits]: a string with more digits does
    not convert. *)
Definition max_str_digits : Z := 4300.

(** The number of digit characters of [s]. *)
Fixpoint digit_count (s : string) : Z :=
  match s with
  | EmptyString => 0
  | String c r => (if digit_value c is Some _ then 1 else 0) + digit_count r
  end.

(** [int(s)] for a string: whitespace around, an optional sign, then the
    digits, at most [max_str_digits] of them. [None] stands for
    [ValueError]. *)
Definition int_of_string (s : string) : option Z :=
  let t := skip_trailing (skip_leading s) in
  if (max_str_digits <? digit_count t)%Z then None
  else
    match t with
    | String "+" r => int_digits false 0 r
    | String "-" r => Z.opp <$> int_digits false 0 r
    | _ => int_digits false 0 t
    end.

(** [int(v)]. *)
Definition int (v : pyval) : exception + Z :=
  match v with
  | PyNone => inl TypeError
  | PyBool b => inr (if b then 1 else 0)
  | PyInt z => inr z
  | PyStr s => match int_of_string s with Some z => inr z | None => inl ValueError end
  end.

(** [s * n] for a one-character banner. *)
Fixpoint repeat_string (s : string) (n : nat) : string :=
  match n with
  | O => EmptyString
  | S n' => s +:+ repeat_string s n'
  end.

End Py.
Export Py.

Example int_of_string_75 : int_of_string "75" = Some 75.
Proof. reflexivity. Qed.

(** A unit separator after the digit is not skipped. *)
Example int_of_string_separator :
  int_of_string (String "7" (String (ascii_of_nat 31) "")) = None.
Proof. reflexivity. Qed.

(** A no-break space before the digits is. *)
Example int_of_string_no_break_space :
  int_of_string (String (ascii_of_nat 160) "75") = Some 75.
Proof. reflexivity. Qed.

(** 4300 digits convert, 4301 do not. *)
Example int_of_string_digit_limit :
  int_of_string (repeat_string "9" 4300) <> None
  /\ int_of_string (repeat_string "9" 4301) = None.
Proof. split; [by vm_compute | by vm_compute]. Qed.

(** ** Effects: an event trace and Python's exceptions *)

(** What leaves a function other than by [return]: [SystemExit] (raised by
    [sys.exit], not an [Exception]) or an [Exception] instance. *)
Inductive raised :=
| SystemExit (code : Z)
| Exc (e : exception).

(** The two pipes of a child process. *)
Inductive handle := Stdout | Stderr.

(** Observable actions, in program order. [Call_finish] and
    [Call_send_apprise_notification] mark the entry of the two functions
    and carry their argument. *)
Inductive event :=
| Log (level : Z) (msg : string)
| LogError (e : exception)
| LogException (msg : string) (e : exception)
| Print (msg : string)
| PrintHelp
| PrintTraceback (e : exception)
| Popen (argv : list pyval)
| Close (h : handle)
| Sleep
| Call_finish (is_success : bool)
| Call_send_apprise_notification (success : bool)
| Notify (body : string) (attach : bool)
| RemoveAttachment.

#[global] Instance handle_eq_dec : EqDecision handle.
Proof. solve_decision. Defined.

#[global] Instance event_eq_dec : EqDecision event.
Proof. solve_decision. Defined.

Record M (A : Type) := MkM { trace : list event; result : raised + A }.
Arguments MkM {A} trace result.
Arguments trace {A} m.
Arguments result {A} m.

Definition ret {A} (a : A) : M A := MkM [] (inr a).

Definition bind {A B} (m : M A) (k : A -> M B) : M B :=
  match result m with
  | inl r => MkM (trace m) (inl r)
  | inr a => MkM (trace m ++ trace (k a))%list (result (k a))
  end.

Notation "'let*' x ':=' c 'in' k" := (bind c (fun x => k))
  (at level 10, x name, c at level 100, k at level 200).
Notation "c '>>' k" := (bind c (fun _ => k))
  (at level 90, right associativity).

Definition emit (e : event) : M unit := MkM [e] (inr tt).
Definition emits (es : list event) : M unit := MkM es (inr tt).
Definition raise {A} (e : exception) : M A := MkM [] (inl (Exc e)).

(** [sys.exit(code)]. *)
Definition sys_exit {A} (code : Z) : M A := MkM [] (inl (SystemExit code)).

(** A pure computation that may raise. *)
Definition lift {A} (r : exception + A) : M A :=
  match r with inl e => raise e | inr a => ret a end.

(** A collaborator call that returns nothing and may raise. *)
Definition attempt (o : option exception) : M unit :=
  match o with Some e => raise e | None => ret tt end.

(** [try: body except <class> as e: handler e]; [catches] is the class.
    [SystemExit] passes through every handler of the script. *)
Definition try_except {A} (catches : exception -> bool) (body : M A)
    (handler : exception -> M A) : M A :=
  match result body with
  | inl (Exc e) =>
      if catches e
      then MkM (trace body ++ trace (handler e))%list (result (handler e))
      else body
  | _ => body
  end.

(** [except Exception]. *)
Definition Exception (e : exception) : bool := true.

(** [except subprocess.CalledProcessError]. *)
Definition is_CalledProcessError (e : exception) : bool :=
  match e with CalledProcessError _ _ => true | _ => false end.

(** The logging levels: [OUTPUT] and [OUTERR] are the two the script adds. *)
Definition OUTPUT : Z := 15.
Definition INFO : Z := 20.
Definition OUTERR : Z := 25.
Definition ERROR : Z := 40.

Definition log (level : Z) (msg : string) : M unit := emit (Log level msg).

(** ** The configuration dictionary *)

Abbreviation config := (gmap string (gmap string pyval)).

(** [config[sec][opt]]: the inner dictionaries are [defaultdict(lambda: "")],
    so a missing option reads as the empty string. The four sections exist
    from [load_config] on. *)
Definition cfg_get (c : config) (sec opt : string) : pyval :=
  default (PyStr "") ((c !!! sec) !! opt).

(** [config[sec][opt] = v]. *)
Definition cfg_set (c : config) (sec opt : string) (v : pyval) : config :=
  <[sec := <[opt := v]> (c !!! sec)]> c.

(** The parsed YAML document, as [load_config] walks it: a mapping from
    section names to mappings from option names to scalars. [SecOther] is a
    section whose value is not a mapping, [DocOther e] a document that is
    not a mapping and whose traversal raises [e]. Mappings are given by
    their items, in document order. *)
Inductive yaml_section :=
| SecMapping (items : list (string * pyval))
| SecOther.

Inductive yaml_doc :=
| DocMapping (secs : list (string * yaml_section))
| DocOther (e : exception).

(** The command line: [--conf], and whether [--no-scrub] and
    [--ignore-deletethreshold] were given. *)
Record args := {
  conf : string;
  no_scrub : bool;
  ignore_deletethreshold : bool;
}.

(** [args.scrub]: [--no-scrub] is a [store_false] option with destination
    [scrub] and default [None]. *)
Definition scrub (a : args) : option bool :=
  if no_scrub a then Some false else None.

(** A finished child process: the lines each pipe delivers to [readline],
    the order in which the two reader threads get to log ([true]: the stdout
    reader moves next), and the exit status. *)
Record process := {
  p_stdout : list string;
  p_stderr : list string;
  p_sched : list bool;
  p_ret : Z;
}.

(** What the apprise library does when asked. *)
Record apprise_lib := {
  installed : bool;
  add_urls : option exception;
  notify : string -> bool -> option exception;
  remove_attachment : option exception;
}.

(** Everything outside the script. *)
Record environment := {
  env_exists : string -> bool;
  env_yaml_load : string -> exception + yaml_doc;
  env_file_handler : pyval -> Z -> option exception;
  env_attach_handler : bool -> option exception;
  env_isfile : pyval -> exception + bool;
  env_popen : list pyval -> exception + process;
  env_apprise : apprise_lib;
}.

(** ** load_config *)

Definition sections : list string := ["snapraid"; "logging"; "apprise"; "scrub"].

(** [dict((x, defaultdict(lambda: "")) for x in sections)]. *)
Definition empty_config : config :=
  list_to_map ((fun x => (x, ∅)) <$> sections).

(** The inner loop [for (k, v) in ....items(): config[section][k] = v]. *)
Definition assign_items (sec : gmap string pyval) (items : list (string * pyval))
    : gmap string pyval :=
  foldl (fun m kv => <[kv.1 := kv.2]> m) sec items.

(** The outer loop over the sections of the file. [config[section]] is only
    evaluated inside the inner loop, so an unknown section raises [KeyError]
    at its first item and not at all when it is empty. *)
Fixpoint load_sections (c : config) (secs : list (string * yaml_section))
    : exception + config :=
  match secs with
  | [] => inr c
  | (name, SecOther) :: _ => inl AttributeError
  | (name, SecMapping []) :: rest => load_sections c rest
  | (name, SecMapping items) :: rest =>
      match c !! name with
      | None => inl KeyError
      | Some sec => load_sections (<[name := assign_items sec items]> c) rest
      end
  end.

Definition int_options : list (string * string) :=
  [("snapraid", "deletethreshold"); ("logging", "maxsize"); ("scrub", "older-than")].

Definition bool_options : list (string * string) :=
  [("snapraid", "touch"); ("apprise", "short"); ("scrub", "enabled")].

Definition coerce_int (c : config) (so : string * string) : config :=
  if isinstance_int (cfg_get c so.1 so.2) then c else cfg_set c so.1 so.2 (PyInt 0).

Definition coerce_bool (c : config) (so : string * string) : config :=
  if isinstance_bool (cfg_get c so.1 so.2) then c else cfg_set c so.1 so.2 (PyBool false).

(** Lines 117-145: the two coercion loops, the [percentage] migration and
    the two command-line overrides. *)
Definition normalize (a : args) (c : config) : config :=
  let c := foldl coerce_int c int_options in
  let c := foldl coerce_bool c bool_options in
  let c := if truthy (cfg_get c "scrub" "percentage")
           then cfg_set c "scrub" "plan" (cfg_get c "scrub" "percentage")
           else c in
  let c := match scrub a with
           | Some b => cfg_set c "scrub" "enabled" (PyBool b)
           | None => c
           end in
  if ignore_deletethreshold a
  then cfg_set c "snapraid" "deletethreshold" (PyInt (-1))
  else c.

(** [load_config] on the parsed document. *)
Definition load_document (a : args) (d : yaml_doc) : exception + config :=
  match d with
  | DocOther e => inl e
  | DocMapping secs =>
      match load_sections empty_config secs with
      | inl e => inl e
      | inr c => inr (normalize a c)
      end
  end.

(** Interleaving of the log records of the two reader threads. *)
Fixpoint interleave {A} (sched : list bool) (xs ys : list A) : list A :=
  match sched with
  | [] => (xs ++ ys)%list
  | true :: sched' =>
      match xs with
      | x :: xs' => x :: interleave sched' xs' ys
      | [] => ys
      end
  | false :: sched' =>
      match ys with
      | y :: ys' => y :: interleave sched' xs ys'
      | [] => xs
      end
  end.

(** [tee_thread], the body of the thread [tee_log] starts:
    [for line in iter(infile.readline, ""): log; append] then
    [infile.close()]. [lines] is what [readline] returns call after call;
    the end of the list is end-of-stream. Returns the events of the thread
    and the buffer [out_lines] after it. *)
Fixpoint tee_thread (h : handle) (lines : list string) (out_lines : list string)
    (log_level : Z) : list event * list string :=
  match lines with
  | [] => ([Close h], out_lines)
  | line :: rest =>
      if String.eqb line ""
      then ([Close h], out_lines)
      else
        let r := tee_thread h rest (out_lines ++ [line])%list log_level in
        (Log log_level (rstrip line) :: r.1, r.2)
  end.

Definition dquote : string := String (ascii_of_nat 34) EmptyString.

Definition stars : string := repeat_string "*" 60.
Definition rule : string := repeat_string "=" 60.

(** [("error", "success")[is_success]]. *)
Definition outcome_name (is_success : bool) : string :=
  nth (if is_success then 1 else 0)%nat ["error"; "success"] "".

(** The four diff categories, in the order the script lists them. *)
Definition categories : list string := ["add"; "remove"; "move"; "update"].

(** [Counter(tokens)]. *)
Definition Counter (tokens : list string) : gmap string nat :=
  foldl (fun m t => <[t := S (default 0%nat (m !! t))]> m) ∅ tokens.

(** Lines 246-248: count the first space-separated token of every line,
    then keep the four categories, reading a missing one as [0]. *)
Definition analyze (diff_out : list string) : gmap string nat :=
  let c := Counter (split_space_head <$> diff_out) in
  list_to_map ((fun x => (x, default 0%nat (c !! x))) <$> categories).

(** [d[k]] on a plain [dict]. *)
Definition dict_get (d : gmap string nat) (k : string) : M nat :=
  match d !! k with
  | Some n => ret n
  | None => raise KeyError
  end.

(** A comparison of an option value with an [int]. *)
Definition as_int (v : pyval) : M Z :=
  match int_value v with
  | Some z => ret z
  | None => raise TypeError
  end.

(** [s + v] for a string [s]. *)
Definition concat (s : string) (v : pyval) : M string :=
  match v with
  | PyStr t => ret (s +:+ t)
  | _ => raise TypeError
  end.

(** ** The script, over an environment *)

Section Runner.

Variable env : environment.

(** [load_config(args)]: open and parse the file, then fill and normalize
    the dictionary. *)
Definition load_config (a : args) : M config :=
  let* d := lift (env_yaml_load env (conf a)) in
  lift (load_document a d).

(** [setup_logger()]: the console handler cannot fail; the rotating file
    handler and the attachment handler are opened by the environment. *)
Definition setup_logger (cfg : config) : M unit :=
  (if truthy (cfg_get cfg "logging" "file")
   then
     let* maxsize := as_int (cfg_get cfg "logging" "maxsize") in
     attempt (env_file_handler env (cfg_get cfg "logging" "file")
                (Z.max maxsize 0 * 1024))
   else ret tt) >>
  (if truthy (cfg_get cfg "apprise" "attach-log")
   then attempt (env_attach_handler env (truthy (cfg_get cfg "apprise" "short")))
   else ret tt).

(** The argument list handed to [subprocess.Popen] (lines 40-45). *)
Definition snapraid_argv (cfg : config) (command : string)
    (args : list (string * pyval)) : list pyval :=
  let arguments :=
    ([PyStr "--conf"; cfg_get cfg "snapraid" "config"; PyStr "--quiet"]
     ++ flat_map (fun kv => [PyStr ("--" +:+ kv.1); PyStr (str kv.2)]) args)%list in
  ([cfg_get cfg "snapraid" "executable"; PyStr command] ++ arguments)%list.

(** [snapraid_command(command, args, allow_statuscodes=...)]. *)
Definition snapraid_command (cfg : config) (command : string)
    (args : list (string * pyval)) (allow_statuscodes : list Z)
    : M (list string) :=
  let argv := snapraid_argv cfg command args in
  emit (Popen argv) >>
  let* p := lift (env_popen env argv) in
  let t1 := tee_thread Stdout (p_stdout p) [] OUTPUT in
  let t2 := tee_thread Stderr (p_stderr p) [] OUTERR in
  emits (interleave (p_sched p) t1.1 t2.1) >>
  emit Sleep >>
  if (p_ret p =? 0)%Z || existsb (Z.eqb (p_ret p)) allow_statuscodes
  then ret t1.2
  else raise (CalledProcessError (p_ret p) ("snapraid " +:+ command)).

(** [send_apprise_notification(success)]. *)
Definition send_apprise_notification (cfg : config) (success : bool) : M unit :=
  emit (Call_send_apprise_notification success) >>
  if negb (installed (env_apprise env))
  then log ERROR "Failed to send notifications because Apprise library is not installed"
  else
    attempt (add_urls (env_apprise env)) >>
    let body := if success
                then "SnapRAID job completed successfully"
                else "Error during SnapRAID job" in
    if truthy (cfg_get cfg "apprise" "attach-log")
    then
      emit (Notify body true) >>
      attempt (notify (env_apprise env) body true) >>
      emit RemoveAttachment >>
      attempt (remove_attachment (env_apprise env))
    else
      emit (Notify body false) >>
      attempt (notify (env_apprise env) body false).

(** [finish(is_success)]. *)
Definition finish (cfg : config) (is_success : bool) : M unit :=
  emit (Call_finish is_success) >>
  let* wanted := lift (py_in (outcome_name is_success) (cfg_get cfg "apprise" "sendon")) in
  (if wanted
   then try_except Exception
          (send_apprise_notification cfg is_success)
          (fun e => emit (LogException "Failed to send notification" e))
   else ret tt) >>
  (if is_success
   then log INFO "Run finished successfully"
   else log ERROR "Run failed") >>
  sys_exit (if is_success then 0 else 1).

(** Lines 223-235 of [run]: the banner and the two file checks. *)
Definition check_preconditions (cfg : config) : M unit :=
  log INFO rule >> log INFO "Run started" >> log INFO rule >>
  let* exe_ok := lift (env_isfile env (cfg_get cfg "snapraid" "executable")) in
  (if negb exe_ok
   then
     log ERROR ("The configured snapraid executable " +:+ dquote
                +:+ str (cfg_get cfg "snapraid" "executable") +:+ dquote
                +:+ " does not exist or is not a file") >>
     finish cfg false
   else ret tt) >>
  let* conf_ok := lift (env_isfile env (cfg_get cfg "snapraid" "config")) in
  if negb conf_ok
  then
    let* msg := concat "Snapraid config does not exist at "
                  (cfg_get cfg "snapraid" "config") in
    log ERROR msg >>
    finish cfg false
  else ret tt.

(** Lines 237-240. *)
Definition touch_stage (cfg : config) : M unit :=
  if truthy (cfg_get cfg "snapraid" "touch")
  then
    log INFO "Running touch..." >>
    snapraid_command cfg "touch" [] [] >>
    log INFO stars
  else ret tt.

(** Lines 242-244. *)
Definition diff_stage (cfg : config) : M (list string) :=
  log INFO "Running diff..." >>
  let* diff_out := snapraid_command cfg "diff" [] [2] in
  log INFO stars >>
  ret diff_out.

(** Lines 249-250: the summary line. *)
Definition report_diff (diff_results : gmap string nat) : M unit :=
  let* a := dict_get diff_results "add" in
  let* r := dict_get diff_results "remove" in
  let* m := dict_get diff_results "move" in
  let* u := dict_get diff_results "update" in
  log INFO ("Diff results: " +:+ str_of_nat a +:+ " added,  "
            +:+ str_of_nat r +:+ " removed,  "
            +:+ str_of_nat m +:+ " moved,  "
            +:+ str_of_nat u +:+ " modified").

(** Lines 252-258: the delete-threshold gate. [and] evaluates its right
    operand only when the left one holds. *)
Definition threshold_gate (cfg : config) (diff_results : gmap string nat) : M unit :=
  let* threshold := as_int (cfg_get cfg "snapraid" "deletethreshold") in
  let* exceeded :=
    if (0 <=? threshold)%Z
    then let* r := dict_get diff_results "remove" in
         ret (threshold <? Z.of_nat r)%Z
    else ret false in
  if (exceeded : bool)
  then
    log ERROR ("Deleted files exceed delete threshold of "
               +:+ str (cfg_get cfg "snapraid" "deletethreshold")
               +:+ ", aborting") >>
    log ERROR "Run again with --ignore-deletethreshold to sync anyways" >>
    finish cfg false
  else ret tt.

(** Lines 260-270: sync unless the diff is empty. *)
Definition sync_stage (cfg : config) (diff_results : gmap string nat) : M unit :=
  let* r := dict_get diff_results "remove" in
  let* a := dict_get diff_results "add" in
  let* m := dict_get diff_results "move" in
  let* u := dict_get diff_results "update" in
  if (r + a + m + u =? 0)%nat
  then log INFO "No changes detected, no sync required"
  else
    log INFO "Running sync..." >>
    try_except is_CalledProcessError
      (snapraid_command cfg "sync" [] [] >> ret tt)
      (fun e => emit (LogError e) >> finish cfg false) >>
    log INFO stars.

(** Lines 274-283: [int(plan)] decides the shape of the scrub arguments;
    only [ValueError] is handled. *)
Definition scrub_args (cfg : config) : M (list (string * pyval)) :=
  match int (cfg_get cfg "scrub" "plan") with
  | inl ValueError => ret [("plan", cfg_get cfg "scrub" "plan")]
  | inl e => raise e
  | inr _ => ret [("plan", cfg_get cfg "scrub" "plan");
                  ("older-than", cfg_get cfg "scrub" "older-than")]
  end.

(** Lines 272-289. *)
Definition scrub_stage (cfg : config) : M unit :=
  if truthy (cfg_get cfg "scrub" "enabled")
  then
    log INFO "Running scrub..." >>
    let* sargs := scrub_args cfg in
    try_except is_CalledProcessError
      (snapraid_command cfg "scrub" sargs [] >> ret tt)
      (fun e => emit (LogError e) >> finish cfg false) >>
    log INFO stars
  else ret tt.

(** What [run] does once the diff output is in hand (lines 246-292). *)
Definition run_after_diff (cfg : config) (diff_out : list string) : M unit :=
  let diff_results := analyze diff_out in
  report_diff diff_results >>
  threshold_gate cfg diff_results >>
  sync_stage cfg diff_results >>
  scrub_stage cfg >>
  log INFO "All done" >>
  finish cfg true.

(** What [run] does up to and including the diff (lines 223-244). *)
Definition run_until_diff (cfg : config) : M (list string) :=
  check_preconditions cfg >>
  touch_stage cfg >>
  diff_stage cfg.

(** [run()]. *)
Definition run (cfg : config) : M unit :=
  let* diff_out := run_until_diff cfg in
  run_after_diff cfg diff_out.

(** The three guarded setup steps of [main] (lines 196-213); each failure
    prints and exits with status 2. *)
Definition setup (a : args) : M config :=
  (if negb (env_exists env (conf a))
   then
     emit (Print "snapraid-runner configuration file not found") >>
     emit PrintHelp >>
     sys_exit 2
   else ret tt) >>
  let* cfg :=
    try_except Exception (load_config a)
      (fun e =>
         emit (Print "unexpected exception while loading config") >>
         emit (PrintTraceback e) >>
         sys_exit 2) in
  try_except Exception (setup_logger cfg)
    (fun e =>
       emit (Print "unexpected exception while setting up logging") >>
       emit (PrintTraceback e) >>
       sys_exit 2) >>
  ret cfg.

(** Lines 215-219: the guarded call of [run]. *)
Definition guarded_run (cfg : config) : M unit :=
  try_except Exception (run cfg)
    (fun e =>
       emit (LogException "Run failed due to unexpected exception:" e) >>
       finish cfg false).

(** [main()], from the parsed command line on. *)
Definition main (a : args) : M unit :=
  let* cfg := setup a in
  guarded_run cfg.

End Runner.

(** The status the interpreter exits with: the code of [SystemExit], 1 for
    an exception nobody caught, 0 when the script runs off its end. *)
Definition exit_status {A} (m : M A) : Z :=
  match result m with
  | inl (SystemExit code) => code
  | inl (Exc _) => 1
  | inr _ => 0
  end.

(** ** Reading a trace *)

(** The snapraid command a [Popen] event runs: the second element of its
    argument list. *)
Definition command_of (e : event) : option string :=
  match e with
  | Popen (_ :: PyStr c :: _) => Some c
  | _ => None
  end.

(** The commands a trace invokes, in order. *)
Definition commands (t : list event) : list string := omap command_of t.

(** How many events of [t] satisfy [p]. *)
Definition count (p : event -> bool) (t : list event) : nat :=
  length (List.filter p t).

Definition is_finish (e : event) : bool :=
  match e with Call_finish _ => true | _ => false end.

Definition is_event (e0 e : event) : bool := bool_decide (e = e0).

(** The "no sync required" log record of line 262. *)
Definition no_sync_required : event :=
  Log INFO "No changes detected, no sync required".

(** Whether a computation ended in [sys.exit]. *)
Definition exited {A} (m : M A) : bool :=
  match result m with inl (SystemExit _) => true | _ => false end.

(** Everything [run] does before it reports "All done": the steps whose
    success makes the run a success. *)
Definition steps (env : environment) (cfg : config) : M unit :=
  let* diff_out := run_until_diff env cfg in
  report_diff (analyze diff_out) >>
  threshold_gate env cfg (analyze diff_out) >>
  sync_stage env cfg (analyze diff_out) >>
  scrub_stage env cfg.

(** ** Laws of the effect layer *)

Section Laws.

Context {A B : Type}.

Lemma trace_bind (m : M A) (k : A -> M B) :
  trace (bind m k)
  = (trace m ++ match result m with inr a => trace (k a) | inl _ => [] end)%list.
Proof. unfold bind. destruct (result m); simpl; [by rewrite app_nil_r | done]. Qed.

Lemma result_bind (m : M A) (k : A -> M B) :
  result (bind m k)
  = match result m with inr a => result (k a) | inl r => inl r end.
Proof. unfold bind. by destruct (result m). Qed.

Lemma trace_try (c : exception -> bool) (body : M A) (h : exception -> M A) :
  trace (try_except c body h)
  = (trace body
     ++ match result body with
        | inl (Exc e) => if c e then trace (h e) else []
        | _ => []
        end)%list.
Proof.
  unfold try_except. destruct (result body) as [[code|e]|a]; simpl;
    try by rewrite app_nil_r.
  destruct (c e); simpl; [done | by rewrite app_nil_r].
Qed.

Lemma result_try (c : exception -> bool) (body : M A) (h : exception -> M A) :
  result (try_except c body h)
  = match result body with
    | inl (Exc e) => if c e then result (h e) else inl (Exc e)
    | r => r
    end.
Proof.
  unfold try_except. destruct (result body) as [[code|e]|a] eqn:E; simpl; try done.
  by destruct (c e).
Qed.

Lemma bind_ret_l (a : A) (k : A -> M B) : bind (ret a) k = k a.
Proof. unfold bind, ret; simpl. by destruct (k a). Qed.

End Laws.

Lemma M_eq {A} (m1 m2 : M A) :
  trace m1 = trace m2 -> result m1 = result m2 -> m1 = m2.
Proof. destruct m1, m2; simpl; congruence. Qed.

Lemma bind_assoc {A B C} (m : M A) (k : A -> M B) (h : B -> M C) :
  bind (bind m k) h = bind m (fun a => bind (k a) h).
Proof.
  apply M_eq.
  - rewrite !trace_bind, !result_bind. destruct (result m) as [r|a]; simpl.
    + by rewrite !app_nil_r.
    + rewrite trace_bind. by rewrite app_assoc.
  - rewrite !result_bind. destruct (result m) as [r|a]; simpl; [done|].
    by rewrite result_bind.
Qed.

Lemma count_app p (t1 t2 : list event) :
  count p (t1 ++ t2) = (count p t1 + count p t2)%nat.
Proof. unfold count. by rewrite List.filter_app, length_app. Qed.

Lemma count_none p (t : list event) :
  Forall (fun e => p e = false) t -> count p t = 0%nat.
Proof.
  unfold count. induction 1 as [|e t He _ IH]; simpl; [done|]. by rewrite He.
Qed.

Lemma commands_app (t1 t2 : list event) :
  commands (t1 ++ t2) = (commands t1 ++ commands t2)%list.
Proof. apply omap_app. Qed.

(** *** Every event of a trace satisfies [P] *)

Section All.

Variable P : event -> Prop.

Definition all {A} (m : M A) : Prop := Forall P (trace m).

Lemma all_ret {A} (a : A) : all (ret a).
Proof. constructor. Qed.

Lemma all_raise {A} e : all (@raise A e).
Proof. constructor. Qed.

Lemma all_sys_exit {A} code : all (@sys_exit A code).
Proof. constructor. Qed.

Lemma all_lift {A} (r : exception + A) : all (lift r).
Proof. destruct r; constructor. Qed.

Lemma all_attempt o : all (attempt o).
Proof. destruct o; constructor. Qed.

Lemma all_emit e : P e -> all (emit e).
Proof. intros; by repeat constructor. Qed.

Lemma all_bind {A B} (m : M A) (k : A -> M B) :
  all m -> (forall a, result m = inr a -> all (k a)) -> all (bind m k).
Proof.
  unfold all. intros Hm Hk. rewrite trace_bind. apply Forall_app. split; [done|].
  destruct (result m); [constructor | by apply Hk].
Qed.

Lemma all_try {A} c (body : M A) h :
  all body -> (forall e, result body = inl (Exc e) -> all (h e)) ->
  all (try_except c body h).
Proof.
  unfold all. intros Hb Hh. rewrite trace_try. apply Forall_app. split; [done|].
  destruct (result body) as [[code|e]|a]; try constructor.
  destruct (c e); [by apply Hh | constructor].
Qed.

Lemma all_dict_get d k : all (dict_get d k).
Proof. unfold dict_get. destruct (d !! k); constructor. Qed.

Lemma all_as_int v : all (as_int v).
Proof. unfold as_int. destruct (int_value v); constructor. Qed.

Lemma all_concat s v : all (concat s v).
Proof. destruct v; constructor. Qed.

Lemma all_interleave sched (xs ys : list event) :
  Forall P xs -> Forall P ys -> Forall P (interleave sched xs ys).
Proof.
  revert xs ys. induction sched as [|[] sched IH]; intros xs ys Hx Hy; simpl.
  - apply Forall_app; done.
  - destruct Hx; [done|]. constructor; [done|]. by apply IH.
  - destruct Hy; [done|]. constructor; [done|]. by apply IH.
Qed.

Lemma all_tee_thread h lines out level :
  P (Close h) -> (forall s, P (Log level s)) ->
  Forall P (tee_thread h lines out level).1.
Proof.
  intros Hc Hl. revert out. induction lines as [|line rest IH]; intros out; simpl.
  - by repeat constructor.
  - destruct (String.eqb line ""); simpl; [by repeat constructor|].
    constructor; [apply Hl | apply IH].
Qed.

End All.

Section AllRunner.

Variable P : event -> Prop.
Variable env : environment.
Variable cfg : config.

Lemma all_snapraid_command command args allow :
  P (Popen (snapraid_argv cfg command args)) ->
  (forall s, P (Log OUTPUT s)) -> (forall s, P (Log OUTERR s)) ->
  P (Close Stdout) -> P (Close Stderr) -> P Sleep ->
  all P (snapraid_command env cfg command args allow).
Proof.
  intros Hp Ho He Hc1 Hc2 Hs. unfold snapraid_command.
  apply all_bind; [by apply all_emit|intros _ _].
  apply all_bind; [apply all_lift|intros p _].
  apply all_bind.
  { apply all_interleave; by apply all_tee_thread. }
  intros _ _. apply all_bind; [by apply all_emit|intros _ _].
  destruct (_ || _); [apply all_ret | apply all_raise].
Qed.

End AllRunner.

(** The script's functions, opened one layer at a time; [finish] and
    [send_apprise_notification] are left closed. *)
Ltac unfold_stages :=
  progress unfold log, check_preconditions, touch_stage, diff_stage,
    report_diff, threshold_gate, sync_stage, scrub_stage, scrub_args,
    run_after_diff, run_until_diff, run, steps, guarded_run.

Ltac split_branch :=
  match goal with
  | |- _ (if ?b then _ else _) => destruct b
  | |- _ (match ?x with _ => _ end) => destruct x
  end.

(** Walks a goal [all P m] down the structure of [m]; [atom] settles [P]
    on each single event. *)
Ltac all_walk atom :=
  repeat
    lazymatch goal with
    | |- all _ (bind _ _) => apply all_bind; [| intros ? _]
    | |- all _ (try_except _ _ _) => apply all_try; [| intros ? _]
    | |- all _ (ret _) => apply all_ret
    | |- all _ (raise _) => apply all_raise
    | |- all _ (sys_exit _) => apply all_sys_exit
    | |- all _ (lift _) => apply all_lift
    | |- all _ (attempt _) => apply all_attempt
    | |- all _ (dict_get _ _) => apply all_dict_get
    | |- all _ (as_int _) => apply all_as_int
    | |- all _ (concat _ _) => apply all_concat
    | |- all _ (snapraid_command _ _ _ _ _) =>
        apply all_snapraid_command; [atom ..]
    | |- all _ (emit _) => apply all_emit; atom
    | |- all _ (if _ then _ else _) => split_branch
    | |- all _ (match _ with _ => _ end) => split_branch
    | |- all _ _ =>
        first [ unfold_stages
              | progress unfold finish, send_apprise_notification ]
    end.

(** Settles that two events differ, or that a classifier is constant on
    an event, by evaluation. *)
Ltac atom_eval :=
  intros;
  first
    [ reflexivity
    | let H := fresh in
      intro H; unfold no_sync_required, INFO, ERROR, OUTPUT, OUTERR in H;
      cbn in H; discriminate H ].

(** *** The code a computation can exit with *)

Section Exits.

Variable Q : Z -> Prop.

Definition exits_sat {A} (m : M A) : Prop :=
  forall code, result m = inl (SystemExit code) -> Q code.

Lemma exits_ret {A} (a : A) : exits_sat (ret a).
Proof. by intros ?. Qed.

Lemma exits_raise {A} e : exits_sat (@raise A e).
Proof. by intros ?. Qed.

Lemma exits_emit e : exits_sat (emit e).
Proof. by intros ?. Qed.

Lemma exits_emits es : exits_sat (emits es).
Proof. by intros ?. Qed.

Lemma exits_lift {A} (r : exception + A) : exits_sat (lift r).
Proof. by destruct r; intros ?. Qed.

Lemma exits_attempt o : exits_sat (attempt o).
Proof. by destruct o; intros ?. Qed.

Lemma exits_dict_get d k : exits_sat (dict_get d k).
Proof. unfold dict_get. by destruct (d !! k); intros ?. Qed.

Lemma exits_as_int v : exits_sat (as_int v).
Proof. unfold as_int. by destruct (int_value v); intros ?. Qed.

Lemma exits_concat s v : exits_sat (concat s v).
Proof. by destruct v; intros ?. Qed.

Lemma exits_sys_exit {A} code : Q code -> exits_sat (@sys_exit A code).
Proof. intros H c [= <-]. done. Qed.

Lemma exits_bind {A B} (m : M A) (k : A -> M B) :
  exits_sat m -> (forall a, result m = inr a -> exits_sat (k a)) ->
  exits_sat (bind m k).
Proof.
  intros Hm Hk c. rewrite result_bind. destruct (result m) as [r|a] eqn:E.
  - intros [= ->]. by apply Hm.
  - by apply Hk.
Qed.

Lemma exits_try {A} c (body : M A) h :
  exits_sat body -> (forall e, result body = inl (Exc e) -> exits_sat (h e)) ->
  exits_sat (try_except c body h).
Proof.
  intros Hb Hh code. rewrite result_try.
  destruct (result body) as [[code'|e]|a] eqn:E; try done.
  - intros [= ->]. by apply Hb.
  - destruct (c e); [by apply Hh | done].
Qed.

End Exits.

Ltac exits_walk :=
  repeat
    lazymatch goal with
    | |- exits_sat _ (bind _ _) => apply exits_bind; [| intros ? _]
    | |- exits_sat _ (try_except _ _ _) => apply exits_try; [| intros ? _]
    | |- exits_sat _ (ret _) => apply exits_ret
    | |- exits_sat _ (raise _) => apply exits_raise
    | |- exits_sat _ (emit _) => apply exits_emit
    | |- exits_sat _ (emits _) => apply exits_emits
    | |- exits_sat _ (lift _) => apply exits_lift
    | |- exits_sat _ (attempt _) => apply exits_attempt
    | |- exits_sat _ (dict_get _ _) => apply exits_dict_get
    | |- exits_sat _ (as_int _) => apply exits_as_int
    | |- exits_sat _ (concat _ _) => apply exits_concat
    | |- exits_sat _ (sys_exit _) => apply exits_sys_exit
    | |- exits_sat _ (if _ then _ else _) => split_branch
    | |- exits_sat _ (match _ with _ => _ end) => split_branch
    | |- exits_sat _ _ =>
        first [ progress unfold snapraid_command
              | unfold_stages
              | progress unfold finish, send_apprise_notification ]
    end.

(** No command and no notification attempt ever calls [sys.exit]. *)
Lemma snapraid_command_no_exit env cfg command args allow :
  exits_sat (fun _ : Z => False) (snapraid_command env cfg command args allow).
Proof. exits_walk. Qed.

Lemma send_apprise_notification_no_exit env cfg b :
  exits_sat (fun _ : Z => False) (send_apprise_notification env cfg b).
Proof. exits_walk. Qed.

(** [finish] exits with 0 after a success and with 1 after a failure, if
    it exits. *)
Lemma finish_exit_code env cfg (b : bool) :
  exits_sat (fun code : Z => code = if b then 0 else 1) (finish env cfg b).
Proof. exits_walk; done. Qed.

(** Before "All done", [sys.exit] is only ever reached through
    [finish(False)]. *)
Lemma steps_exit_code env cfg :
  exits_sat (fun code : Z => code = 1) (steps env cfg).
Proof. exits_walk; done. Qed.

(** *** One call of [finish] per exit *)

(** A computation that exits did so through one call of [finish], with the
    matching code; one that does not exit never called [finish]. *)
Definition finalized {A} (m : M A) : Prop :=
  match result m with
  | inl (SystemExit code) =>
      exists b : bool,
        List.filter is_finish (trace m) = [Call_finish b]
        /\ code = (if b then 0 else 1)
  | _ => List.filter is_finish (trace m) = []
  end.

Lemma filter_none (p : event -> bool) (t : list event) :
  Forall (fun e => p e = false) t -> List.filter p t = [].
Proof. induction 1 as [|e t He _ IH]; simpl; [done|]. by rewrite He. Qed.

Lemma finalized_quiet {A} (m : M A) :
  exits_sat (fun _ : Z => False) m -> all (fun e => is_finish e = false) m ->
  finalized m.
Proof.
  intros Hx Ha. unfold finalized.
  destruct (result m) as [[code|e]|a] eqn:E; try by apply filter_none.
  destruct (Hx code E).
Qed.

Lemma finalized_bind {A B} (m : M A) (k : A -> M B) :
  finalized m -> (forall a, result m = inr a -> finalized (k a)) ->
  finalized (bind m k).
Proof.
  unfold finalized. intros Hm Hk. rewrite trace_bind, result_bind, List.filter_app.
  destruct (result m) as [[code|e]|a] eqn:E; simpl.
  - by rewrite app_nil_r.
  - by rewrite app_nil_r.
  - rewrite Hm. simpl. by apply Hk.
Qed.

Lemma finalized_try {A} c (body : M A) h :
  finalized body -> (forall e, result body = inl (Exc e) -> finalized (h e)) ->
  finalized (try_except c body h).
Proof.
  unfold finalized. intros Hb Hh. rewrite trace_try, result_try, List.filter_app.
  destruct (result body) as [[code|e]|a] eqn:E; simpl.
  - by rewrite app_nil_r.
  - destruct (c e); simpl.
    + rewrite Hb. simpl. by apply Hh.
    + by rewrite app_nil_r.
  - by rewrite app_nil_r.
Qed.

(** With a string in [sendon], [finish] logs, exits with the code of its
    argument and has been entered once. *)
Lemma finish_exits env cfg (b : bool) s :
  cfg_get cfg "apprise" "sendon" = PyStr s ->
  result (finish env cfg b) = inl (SystemExit (if b then 0 else 1)).
Proof.
  intros Hs. unfold finish. rewrite result_bind; simpl. rewrite Hs; simpl.
  rewrite result_bind.
  assert (result (if contains (outcome_name b) s
                  then try_except Exception (send_apprise_notification env cfg b)
                         (fun e => emit (LogException "Failed to send notification" e))
                  else ret tt) = inr tt) as ->.
  { destruct (contains _ _); [|done]. rewrite result_try.
    pose proof (send_apprise_notification_no_exit env cfg b) as Hx.
    destruct (result (send_apprise_notification env cfg b)) as [[code|e]|[]] eqn:E;
      try done.
    destruct (Hx code E). }
  by destruct b.
Qed.

Lemma finish_finalized env cfg (b : bool) s :
  cfg_get cfg "apprise" "sendon" = PyStr s ->
  finalized (finish env cfg b).
Proof.
  intros Hs. unfold finalized. rewrite (finish_exits env cfg b s Hs).
  exists b. split; [|done].
  unfold finish. rewrite trace_bind; simpl. f_equal.
  apply filter_none. rewrite Hs; simpl.
  change (@all (fun e => is_finish e = false) unit
            ((if contains (outcome_name b) s
              then try_except Exception (send_apprise_notification env cfg b)
                     (fun e => emit (LogException "Failed to send notification" e))
              else ret tt) >>
             (if b then log INFO "Run finished successfully" else log ERROR "Run failed") >>
             sys_exit (if b then 0 else 1))).
  all_walk atom_eval.
Qed.

Lemma snapraid_command_finalized env cfg command args allow :
  finalized (snapraid_command env cfg command args allow).
Proof.
  apply finalized_quiet; [apply snapraid_command_no_exit|].
  all_walk atom_eval.
Qed.

(** Walks a goal [finalized m]; [Hs] says that [sendon] is a string. *)
Ltac finalized_walk Hs :=
  repeat
    lazymatch goal with
    | |- finalized (finish _ _ _) => apply (finish_finalized _ _ _ _ Hs)
    | |- finalized (snapraid_command _ _ _ _ _) =>
        apply snapraid_command_finalized
    | |- finalized (bind _ _) => apply finalized_bind; [| intros ? _]
    | |- finalized (try_except _ _ _) => apply finalized_try; [| intros ? _]
    | |- finalized (if _ then _ else _) => split_branch
    | |- finalized (match _ with _ => _ end) => split_branch
    | |- finalized _ =>
        first [ apply finalized_quiet;
                [solve [exits_walk] | solve [all_walk atom_eval]]
              | unfold_stages ]
    end.

Lemma run_finalized env cfg s :
  cfg_get cfg "apprise" "sendon" = PyStr s -> finalized (run env cfg).
Proof. intros Hs. finalized_walk Hs. Qed.

Lemma guarded_run_finalized env cfg s :
  cfg_get cfg "apprise" "sendon" = PyStr s -> finalized (guarded_run env cfg).
Proof. intros Hs. finalized_walk Hs. Qed.

(** *** [run] never returns *)

Lemma result_bind_inr {A B} (m : M A) (k : A -> M B) b :
  result (bind m k) = inr b ->
  exists a, result m = inr a /\ result (k a) = inr b.
Proof. rewrite result_bind. destruct (result m) as [r|a]; [done|]. eauto. Qed.

Lemma bind_ext {A B} (m : M A) (k k' : A -> M B) :
  (forall a, k a = k' a) -> bind m k = bind m k'.
Proof. intros H. unfold bind. destruct (result m); [done|]. by rewrite H. Qed.

(** [finish] never returns to its caller: it exits or raises. *)
Lemma finish_never_returns env cfg b u : result (finish env cfg b) <> inr u.
Proof.
  unfold finish. intros H.
  apply result_bind_inr in H as (? & _ & H).
  apply result_bind_inr in H as (? & _ & H).
  apply result_bind_inr in H as (? & _ & H).
  apply result_bind_inr in H as (? & _ & H).
  done.
Qed.

(** [run] is its steps, then "All done", then [finish(True)]. *)
Lemma run_steps env cfg :
  run env cfg = (steps env cfg >> log INFO "All done" >> finish env cfg true).
Proof.
  unfold run, steps, run_after_diff. rewrite bind_assoc.
  apply bind_ext; intros d.
  rewrite bind_assoc. apply bind_ext; intros _.
  rewrite bind_assoc. apply bind_ext; intros _.
  rewrite bind_assoc. by apply bind_ext; intros _.
Qed.

Lemma run_never_returns env cfg u : result (run env cfg) <> inr u.
Proof.
  rewrite run_steps. intros H.
  apply result_bind_inr in H as (? & _ & H).
  apply result_bind_inr in H as (? & _ & H).
  by apply finish_never_returns in H.
Qed.

(** Whatever [sendon] holds, [finish(False)] ends the process with
    status 1: by [sys.exit(1)], or by the exception of the membership test. *)
Lemma finish_false_status env cfg : exit_status (finish env cfg false) = 1.
Proof.
  unfold exit_status.
  pose proof (finish_exit_code env cfg false) as Hc.
  pose proof (finish_never_returns env cfg false) as Hr.
  destruct (result (finish env cfg false)) as [[code|e]|[]] eqn:E; [|done|].
  - exact (Hc code E).
  - by destruct (Hr tt).
Qed.

(** ** Sample inputs *)

Definition demo_doc : yaml_doc :=
  DocMapping
    [("snapraid", SecMapping [("executable", PyStr "/usr/bin/snapraid");
                              ("config", PyStr "/etc/snapraid.conf");
                              ("deletethreshold", PyInt 5);
                              ("touch", PyBool true)]);
     ("scrub", SecMapping [("enabled", PyBool true);
                           ("plan", PyInt 12);
                           ("older-than", PyInt 10)]);
     ("apprise", SecMapping [("sendon", PyStr "success,error")])].

Definition demo_args : args :=
  {| conf := "snapraid-runner.yml"; no_scrub := false;
     ignore_deletethreshold := false |}.

(** The configuration [load_config] builds from a document ([empty_config]
    when loading raises). *)
Definition config_of (a : args) (d : yaml_doc) : config :=
  match load_document a d with
  | inr c => c
  | inl _ => empty_config
  end.

Definition demo_config : config := config_of demo_args demo_doc.

(** ** The argument vector of a command *)

Definition is_popen (e : event) : bool :=
  match e with Popen _ => true | _ => false end.

(** The layout the tool-invocation sentence describes: both global flags
    somewhere before the command name. *)
Definition flags_before_command (argv : list pyval) (command : string) : Prop :=
  exists pre post,
    argv = (pre ++ PyStr command :: post)%list
    /\ PyStr "--quiet" ∈ pre /\ PyStr "--conf" ∈ pre.

Lemma flat_map_flags_length (args : list (string * pyval)) :
  length (flat_map (fun kv => [PyStr ("--" +:+ kv.1); PyStr (str kv.2)]) args)
  = (2 * length args)%nat.
Proof. induction args as [|kv args IH]; simpl; lia. Qed.

Lemma flat_map_flags_lookup (args : list (string * pyval)) i k v :
  args !! i = Some (k, v) ->
  let flags := flat_map (fun kv => [PyStr ("--" +:+ kv.1); PyStr (str kv.2)]) args in
  flags !! (2 * i)%nat = Some (PyStr ("--" +:+ k))
  /\ flags !! (S (2 * i))%nat = Some (PyStr (str v)).
Proof.
  revert i. induction args as [|kv args IH]; intros i Hi; [done|].
  destruct i as [|i]; simpl in *.
  - by injection Hi as ->.
  - replace (i + S (i + 0))%nat with (S (2 * i))%nat by lia. simpl.
    by apply IH.
Qed.

(** A command starts one child process, with the vector [snapraid_argv]
    builds. *)
Lemma snapraid_command_popen env cfg command (args : list (string * pyval)) allow :
  List.filter is_popen (trace (snapraid_command env cfg command args allow))
  = [Popen (snapraid_argv cfg command args)].
Proof.
  unfold snapraid_command. rewrite trace_bind. simpl. f_equal.
  apply filter_none.
  match goal with |- Forall ?P (trace ?m) => change (all P m) end.
  all_walk atom_eval.
  apply all_interleave; apply all_tee_thread; atom_eval.
Qed.

(** C2 (as the code has it): for every command and argument map, the
    vector handed to the child process is the executable, then the command
    name, then [--conf] with the configured path, then [--quiet], then for
    every key/value pair of the map, in its order, the flag ["--" + key]
    followed by [str(value)]; a command starts exactly one child process,
    with that vector. *)
Theorem snapraid_argv_layout env cfg command (args : list (string * pyval)) allow :
  snapraid_argv cfg command args
  = ([cfg_get cfg "snapraid" "executable"; PyStr command; PyStr "--conf";
      cfg_get cfg "snapraid" "config"; PyStr "--quiet"]
     ++ flat_map (fun kv => [PyStr ("--" +:+ kv.1); PyStr (str kv.2)]) args)%list
  /\ length (snapraid_argv cfg command args) = (5 + 2 * length args)%nat
  /\ (forall i k v, args !! i = Some (k, v) ->
        snapraid_argv cfg command args !! (5 + 2 * i)%nat = Some (PyStr ("--" +:+ k))
        /\ snapraid_argv cfg command args !! (6 + 2 * i)%nat = Some (PyStr (str v)))
  /\ List.filter is_popen (trace (snapraid_command env cfg command args allow))
     = [Popen (snapraid_argv cfg command args)].
Proof.
  split; [reflexivity|]. split; [|split].
  - unfold snapraid_argv. simpl. by rewrite flat_map_flags_length.
  - intros i k v Hi. unfold snapraid_argv.
    destruct (flat_map_flags_lookup args i k v Hi) as [H1 H2]. by split.
  - apply snapraid_command_popen.
Qed.

(** C2 (counterexample): for the diff command with an empty argument map
    the vector is executable, [diff], [--conf], path, [--quiet]: the command
    name comes before both global flags, not after them. *)
Lemma snapraid_argv_command_first :
  snapraid_argv demo_config "diff" []
  = [PyStr "/usr/bin/snapraid"; PyStr "diff"; PyStr "--conf";
     PyStr "/etc/snapraid.conf"; PyStr "--quiet"]
  /\ ~ flags_before_command (snapraid_argv demo_config "diff" []) "diff".
Proof.
  assert (snapraid_argv demo_config "diff" []
          = [PyStr "/usr/bin/snapraid"; PyStr "diff"; PyStr "--conf";
             PyStr "/etc/snapraid.conf"; PyStr "--quiet"]) as E by reflexivity.
  split; [exact E|]. rewrite E. intros (pre & post & Heq & Hq & _).
  destruct pre as [|x0 pre]; [by apply elem_of_nil in Hq|].
  injection Heq as <- Heq.
  destruct pre as [|x1 pre].
  - apply list_elem_of_singleton in Hq. discriminate Hq.
  - injection Heq as <- Heq.
    destruct pre as [|x2 pre]; [discriminate Heq|]. injection Heq as <- Heq.
    destruct pre as [|x3 pre]; [discriminate Heq|]. injection Heq as <- Heq.
    destruct pre as [|x4 pre]; [discriminate Heq|]. injection Heq as <- Heq.
    destruct pre; discriminate Heq.
Qed.

(** ** The diff analyzer *)

Definition TAB : string := String (ascii_of_nat 9) EmptyString.
Definition LF : string := String (ascii_of_nat 10) EmptyString.

Fixpoint take_word (s : string) : string :=
  match s with
  | EmptyString => EmptyString
  | String c r => if isspace c then EmptyString else String c (take_word r)
  end.

(** The first whitespace-delimited token of a line, in the words of the
    analyzer's contract: leading whitespace skipped, then everything up to
    the next whitespace character ([line.split()[0]]). *)
Definition first_word (s : string) : string := take_word (lstrip s).

(** Whether every whitespace character of [s] is the space character. *)
Fixpoint only_plain_spaces (s : string) : bool :=
  match s with
  | EmptyString => true
  | String c r => (negb (isspace c) || Ascii.eqb c " ") && only_plain_spaces r
  end.

Lemma Counter_fold (tokens : list string) (m : gmap string nat) (t : string) :
  default 0%nat
    (foldl (fun m t => <[t := S (default 0%nat (m !! t))]> m) m tokens !! t)
  = (default 0%nat (m !! t) + count_occ string_dec tokens t)%nat.
Proof.
  revert m. induction tokens as [|x tokens IH]; intros m; simpl; [lia|].
  rewrite IH. destruct (string_dec x t) as [->|Hne].
  - rewrite lookup_insert_eq. simpl. lia.
  - by rewrite lookup_insert_ne.
Qed.

(** [Counter] counts occurrences. *)
Lemma Counter_lookup (tokens : list string) (t : string) :
  default 0%nat (Counter tokens !! t) = count_occ string_dec tokens t.
Proof. unfold Counter. by rewrite Counter_fold, lookup_empty. Qed.

(** The dictionary of line 247 has exactly the four categories as keys,
    each with the number of lines whose first space-separated token it is. *)
Lemma analyze_lookup (lines : list string) (k : string) :
  analyze lines !! k
  = if bool_decide (k ∈ categories)
    then Some (count_occ string_dec (split_space_head <$> lines) k)
    else None.
Proof.
  unfold analyze, categories. simpl.
  rewrite !lookup_insert, lookup_empty.
  repeat case_decide; subst; simpl; rewrite ?Counter_lookup; try reflexivity.
  all: exfalso; rewrite ?elem_of_cons, ?elem_of_nil in *; intuition congruence.
Qed.

Lemma split_space_head_first_word (line : string) :
  only_plain_spaces line = true -> lstrip line = line ->
  split_space_head line = first_word line.
Proof.
  unfold first_word. intros Hp ->. clear -Hp.
  induction line as [|c r IH]; simpl in *; [done|].
  apply andb_prop in Hp as [Hc Hr]. rewrite (IH Hr).
  destruct (isspace c) eqn:Es, (Ascii.eqb c " ") eqn:Ec; simpl in *; try done.
  apply Ascii.eqb_eq in Ec as ->. done.
Qed.

(** C5 (as the code has it): every line is classified by the text before
    its first space character (the whole line when it has no space); the
    result has exactly the keys add, remove, move and update, each with its
    number of lines, zero included, so reading and summing the four never
    raises; other tokens are not in the result; on lines where the only
    whitespace is the space character and none leads, that text is the first
    whitespace-delimited token; and the six sample lines give 2, 2, 1, 1. *)
Theorem analyze_counts (lines : list string) :
  (forall c, c ∈ categories ->
     analyze lines !! c
     = Some (count_occ string_dec (split_space_head <$> lines) c)
     /\ result (dict_get (analyze lines) c)
        = inr (count_occ string_dec (split_space_head <$> lines) c))
  /\ (forall k, k ∉ categories -> analyze lines !! k = None)
  /\ result (report_diff (analyze lines)) = inr tt
  /\ (forall line, only_plain_spaces line = true -> lstrip line = line ->
        split_space_head line = first_word line)
  /\ analyze ["add a"; "remove b"; "add c"; "move d"; "update e"; "remove f"]
     = {[ "add" := 2%nat; "remove" := 2%nat; "move" := 1%nat; "update" := 1%nat ]}.
Proof.
  assert (forall c, c ∈ categories ->
            analyze lines !! c
            = Some (count_occ string_dec (split_space_head <$> lines) c)) as Hget.
  { intros c Hc. rewrite analyze_lookup. by rewrite bool_decide_eq_true_2. }
  split; [|split; [|split; [|split]]].
  - intros c Hc. split; [by apply Hget|]. unfold dict_get. by rewrite Hget.
  - intros k Hk. rewrite analyze_lookup. by rewrite bool_decide_eq_false_2.
  - unfold report_diff, dict_get.
    rewrite !Hget by (unfold categories; rewrite !elem_of_cons; naive_solver).
    reflexivity.
  - apply split_space_head_first_word.
  - vm_compute. reflexivity.
Qed.

(** C5 (counterexample): the first whitespace-delimited token of the line
    "add<TAB>x" is "add", yet the analyzer, which splits on the space
    character only, counts no add for it. *)
Lemma analyze_tab_line :
  first_word ("add" +:+ TAB +:+ "x") = "add"
  /\ analyze ["add" +:+ TAB +:+ "x"] !! "add" = Some 0%nat.
Proof. split; reflexivity. Qed.

(** ** The stream tee *)

(** The lines [iter(infile.readline, "")] yields: those before the first
    empty string, which is how [readline] reports end-of-stream. *)
Fixpoint until_eof (lines : list string) : list string :=
  match lines with
  | [] => []
  | line :: rest => if String.eqb line "" then [] else line :: until_eof rest
  end.

Fixpoint all_space (s : string) : bool :=
  match s with
  | EmptyString => true
  | String c r => isspace c && all_space r
  end.

Fixpoint last_char (s : string) : option ascii :=
  match s with
  | EmptyString => None
  | String c EmptyString => Some c
  | String _ r => last_char r
  end.

(** A line with only its line terminator taken off, in the words of the
    tee's contract: one final line feed removed, nothing else. *)
Fixpoint chomp (s : string) : string :=
  match s with
  | EmptyString => EmptyString
  | String c EmptyString => if Ascii.eqb c (ascii_of_nat 10) then EmptyString else s
  | String c r => String c (chomp r)
  end.

Lemma rstrip_all_space (ws : string) : all_space ws = true -> rstrip ws = "".
Proof.
  induction ws as [|c r IH]; simpl; [done|].
  intros [Hc Hr]%andb_prop. by rewrite (IH Hr), Hc.
Qed.

(** [rstrip] ignores a whitespace suffix. *)
Lemma rstrip_app_space (s ws : string) :
  all_space ws = true -> rstrip (s +:+ ws) = rstrip s.
Proof.
  intros Hws. induction s as [|c r IH]; simpl.
  - by apply rstrip_all_space.
  - by rewrite IH.
Qed.

(** What [rstrip] removes is whitespace. *)
Lemma rstrip_suffix (s : string) :
  exists ws, s = rstrip s +:+ ws /\ all_space ws = true.
Proof.
  induction s as [|c r (ws & Hr & Hws)]; simpl.
  - by exists "".
  - destruct (rstrip r) as [|c' r'] eqn:E.
    + destruct (isspace c) eqn:Ec.
      * exists (String c r). split; [done|]. simpl. rewrite Ec. simpl.
        rewrite Hr. by simpl.
      * exists ws. simpl. split; [|done]. f_equal. by rewrite Hr at 1.
    + exists ws. split; [|done]. simpl. f_equal. by rewrite Hr at 1.
Qed.

(** What [rstrip] leaves does not end in whitespace. *)
Lemma rstrip_last (s : string) c :
  last_char (rstrip s) = Some c -> isspace c = false.
Proof.
  induction s as [|a r IH]; simpl; [done|].
  destruct (rstrip r) as [|c' r'] eqn:E.
  - destruct (isspace a) eqn:Ea; simpl; [done|]. by intros [= <-].
  - simpl. simpl in IH. exact IH.
Qed.

Lemma tee_thread_until_eof h (lines out : list string) level :
  tee_thread h lines out level
  = ((Log level ∘ rstrip <$> until_eof lines) ++ [Close h],
     out ++ until_eof lines)%list.
Proof.
  revert out. induction lines as [|line rest IH]; intros out; simpl.
  - by rewrite app_nil_r.
  - destruct (String.eqb line ""); simpl.
    + by rewrite app_nil_r.
    + rewrite IH. simpl. by rewrite <- app_assoc.
Qed.

Lemma until_eof_id (lines : list string) :
  Forall (fun line => line <> "") lines -> until_eof lines = lines.
Proof.
  induction 1 as [|line rest Hl _ IH]; simpl; [done|].
  apply String.eqb_neq in Hl. by rewrite Hl, IH.
Qed.

(** C9 (as the code has it): for every stream, the tee logs each line read
    before end-of-stream, in order and at the given level, with all of its
    trailing whitespace removed (the line terminator is part of it; what
    remains does not end in whitespace, and a line that is a text without
    trailing whitespace followed by a line feed is logged as that text),
    appends each raw line to the buffer, and closes the stream as its last
    action. *)
Theorem tee_thread_spec h (lines out : list string) level :
  (tee_thread h lines out level).1
  = ((Log level ∘ rstrip <$> until_eof lines) ++ [Close h])%list
  /\ (tee_thread h lines out level).2 = (out ++ until_eof lines)%list
  /\ (Forall (fun line => line <> "") lines -> until_eof lines = lines)
  /\ (forall line,
        (exists ws, line = rstrip line +:+ ws /\ all_space ws = true)
        /\ (forall c, last_char (rstrip line) = Some c -> isspace c = false))
  /\ (forall body, rstrip body = body -> rstrip (body +:+ LF) = body).
Proof.
  rewrite tee_thread_until_eof. simpl.
  split; [done|]. split; [done|]. split; [apply until_eof_id|]. split.
  - intros line. split; [apply rstrip_suffix | apply rstrip_last].
  - intros body Hb. by rewrite rstrip_app_space.
Qed.

(** C9 (counterexample): the line "a", two spaces, line feed is logged as
    "a"; with only its line terminator taken off it would be "a" followed by
    the two spaces. *)
Lemma tee_thread_strips_spaces :
  (tee_thread Stdout ["a  " +:+ LF] [] OUTPUT).1 = [Log OUTPUT "a"; Close Stdout]
  /\ chomp ("a  " +:+ LF) = "a  "
  /\ (tee_thread Stdout ["a  " +:+ LF] [] OUTPUT).1
     <> [Log OUTPUT (chomp ("a  " +:+ LF)); Close Stdout].
Proof. split; [reflexivity|]. split; [reflexivity|]. discriminate. Qed.

(** ** The scrub arguments *)

(** The keys of an argument map. *)
Definition keys (args : list (string * pyval)) : list string := args.*1.

(** *** Events of one kind in a composed trace *)

Section Filter.

Variable p : event -> bool.

Lemma all_nil {A} (P : event -> Prop) (m : M A) : trace m = [] -> all P m <-> True.
Proof. unfold all. intros ->. split; [done | constructor]. Qed.

Lemma filter_bind_l {A B} (m : M A) (k : A -> M B) :
  all (fun e => p e = false) m ->
  List.filter p (trace (bind m k))
  = match result m with
    | inr a => List.filter p (trace (k a))
    | inl _ => []
    end.
Proof.
  intros Hm. rewrite trace_bind, List.filter_app, (filter_none p (trace m) Hm).
  by destruct (result m).
Qed.

Lemma filter_bind_r {A B} (m : M A) (k : A -> M B) :
  (forall a, result m = inr a -> all (fun e => p e = false) (k a)) ->
  List.filter p (trace (bind m k)) = List.filter p (trace m).
Proof.
  intros Hk. rewrite trace_bind, List.filter_app.
  destruct (result m) as [r|a]; simpl; [by rewrite app_nil_r|].
  rewrite (filter_none p (trace (k a))); [by rewrite app_nil_r | by apply Hk].
Qed.

Lemma filter_try_r {A} c (body : M A) h :
  (forall e, result body = inl (Exc e) -> all (fun e => p e = false) (h e)) ->
  List.filter p (trace (try_except c body h)) = List.filter p (trace body).
Proof.
  intros Hh. rewrite trace_try, List.filter_app.
  destruct (result body) as [[code|e]|a]; simpl; try by rewrite app_nil_r.
  destruct (c e); simpl; [|by rewrite app_nil_r].
  rewrite (filter_none p (trace (h e))); [by rewrite app_nil_r | by apply Hh].
Qed.

End Filter.

Lemma scrub_args_trace cfg : trace (scrub_args cfg) = [].
Proof.
  unfold scrub_args.
  by destruct (int (cfg_get cfg "scrub" "plan")) as [[]|].
Qed.

(** C8: for every configuration, when [int(plan)] succeeds the scrub
    argument map is plan and older-than, when it raises [ValueError] the map
    is plan alone, and any other exception leaves no map at all; so a map
    holds older-than exactly when the plan converts to an integer, and
    always holds plan. With scrub enabled the scrub stage starts snapraid
    with the vector built from that map. The plan "75" gives plan and
    older-than, the plan "bad" gives plan alone. *)
Theorem scrub_args_older_than env cfg :
  let plan := cfg_get cfg "scrub" "plan" in
  let older := cfg_get cfg "scrub" "older-than" in
  (forall z, int plan = inr z ->
     scrub_args cfg = ret [("plan", plan); ("older-than", older)])
  /\ (int plan = inl ValueError -> scrub_args cfg = ret [("plan", plan)])
  /\ (forall sargs, result (scrub_args cfg) = inr sargs ->
        ("older-than" ∈ keys sargs <-> exists z, int plan = inr z)
        /\ "plan" ∈ keys sargs)
  /\ (forall sargs, truthy (cfg_get cfg "scrub" "enabled") = true ->
        result (scrub_args cfg) = inr sargs ->
        List.filter is_popen (trace (scrub_stage env cfg))
        = [Popen (snapraid_argv cfg "scrub" sargs)])
  /\ (plan = PyStr "75" ->
        scrub_args cfg = ret [("plan", PyStr "75"); ("older-than", older)])
  /\ (plan = PyStr "bad" -> scrub_args cfg = ret [("plan", PyStr "bad")]).
Proof.
  intros plan older. subst plan older.
  split; [|split; [|split; [|split; [|split]]]].
  - intros z Hz. unfold scrub_args. by rewrite Hz.
  - intros Hv. unfold scrub_args. by rewrite Hv.
  - intros sargs. unfold scrub_args.
    destruct (int (cfg_get cfg "scrub" "plan")) as [e|z] eqn:E.
    + destruct e; simpl; intros [= <-]. split; [|by left].
      unfold keys. simpl. rewrite list_elem_of_singleton.
      split; [discriminate | intros [z Hz]; discriminate Hz].
    + simpl. intros [= <-]. split; [|by left]. split; [by eexists|].
      intros _. right. by left.
  - intros sargs Hen Hs. unfold scrub_stage. rewrite Hen.
    rewrite filter_bind_l by all_walk atom_eval.
    change (result (log INFO "Running scrub...")) with (@inr raised unit tt).
    cbv iota beta.
    rewrite filter_bind_l by (rewrite all_nil; [done | apply scrub_args_trace]).
    rewrite Hs.
    rewrite filter_bind_r by (intros; all_walk atom_eval).
    rewrite filter_try_r by (intros; all_walk atom_eval).
    rewrite filter_bind_r by (intros; all_walk atom_eval).
    apply snapraid_command_popen.
  - intros Hp. unfold scrub_args. rewrite Hp. reflexivity.
  - intros Hp. unfold scrub_args. rewrite Hp. reflexivity.
Qed.

(** ** Configuration coercion *)

Lemma cfg_get_set (c : config) s o v s' o' :
  cfg_get (cfg_set c s o v) s' o'
  = if decide (s = s' /\ o = o') then v else cfg_get c s' o'.
Proof.
  unfold cfg_get, cfg_set. destruct (decide (s = s')) as [<-|Hs].
  - rewrite lookup_total_insert_eq. destruct (decide (o = o')) as [<-|Ho].
    + rewrite lookup_insert_eq. by rewrite decide_True.
    + rewrite lookup_insert_ne by done. by rewrite decide_False by tauto.
  - rewrite lookup_total_insert_ne by done. by rewrite decide_False by tauto.
Qed.

Lemma cfg_get_coerce_int (c : config) so s o :
  cfg_get (coerce_int c so) s o
  = if decide (so.1 = s /\ so.2 = o)
    then (if isinstance_int (cfg_get c s o) then cfg_get c s o else PyInt 0)
    else cfg_get c s o.
Proof.
  unfold coerce_int. case_decide as H.
  - destruct H as [<- <-]. destruct (isinstance_int _); [done|].
    rewrite cfg_get_set. by rewrite decide_True.
  - destruct (isinstance_int _); [done|]. rewrite cfg_get_set.
    by rewrite decide_False.
Qed.

Lemma cfg_get_coerce_bool (c : config) so s o :
  cfg_get (coerce_bool c so) s o
  = if decide (so.1 = s /\ so.2 = o)
    then (if isinstance_bool (cfg_get c s o) then cfg_get c s o else PyBool false)
    else cfg_get c s o.
Proof.
  unfold coerce_bool. case_decide as H.
  - destruct H as [<- <-]. destruct (isinstance_bool _); [done|].
    rewrite cfg_get_set. by rewrite decide_True.
  - destruct (isinstance_bool _); [done|]. rewrite cfg_get_set.
    by rewrite decide_False.
Qed.

Lemma cfg_get_set_eq (c : config) s o v : cfg_get (cfg_set c s o v) s o = v.
Proof. rewrite cfg_get_set. by rewrite decide_True. Qed.

Lemma cfg_get_set_ne (c : config) s o v s' o' :
  (s, o) <> (s', o') -> cfg_get (cfg_set c s o v) s' o' = cfg_get c s' o'.
Proof.
  intros Hne. rewrite cfg_get_set. rewrite decide_False; [done|].
  intros [-> ->]. by apply Hne.
Qed.

Lemma cfg_get_coerce_int_eq (c : config) s o :
  cfg_get (coerce_int c (s, o)) s o
  = if isinstance_int (cfg_get c s o) then cfg_get c s o else PyInt 0.
Proof. rewrite cfg_get_coerce_int. by rewrite decide_True. Qed.

Lemma cfg_get_coerce_int_ne (c : config) so s o :
  so <> (s, o) -> cfg_get (coerce_int c so) s o = cfg_get c s o.
Proof.
  intros Hne. rewrite cfg_get_coerce_int. rewrite decide_False; [done|].
  destruct so as [s' o']. simpl. intros [-> ->]. by apply Hne.
Qed.

Lemma cfg_get_coerce_bool_eq (c : config) s o :
  cfg_get (coerce_bool c (s, o)) s o
  = if isinstance_bool (cfg_get c s o) then cfg_get c s o else PyBool false.
Proof. rewrite cfg_get_coerce_bool. by rewrite decide_True. Qed.

Lemma cfg_get_coerce_bool_ne (c : config) so s o :
  so <> (s, o) -> cfg_get (coerce_bool c so) s o = cfg_get c s o.
Proof.
  intros Hne. rewrite cfg_get_coerce_bool. rewrite decide_False; [done|].
  destruct so as [s' o']. simpl. intros [-> ->]. by apply Hne.
Qed.

(** Reads one option of [normalize a c]: the branches on the command line
    and on [percentage] are split and the writes to other options are
    looked through. *)
Ltac normalize_at :=
  unfold normalize, int_options, bool_options, scrub; cbn [foldl];
  destruct (ignore_deletethreshold _), (no_scrub _);
  match goal with |- context [truthy ?v] => destruct (truthy v) end;
  cbn [andb fst snd];
  repeat first
    [ rewrite cfg_get_set_eq
    | rewrite cfg_get_set_ne by discriminate
    | rewrite cfg_get_coerce_int_eq
    | rewrite cfg_get_coerce_int_ne by discriminate
    | rewrite cfg_get_coerce_bool_eq
    | rewrite cfg_get_coerce_bool_ne by discriminate ].

(** The typed fields hold a value of their declared type. *)
Definition typed (c : config) : Prop :=
  (forall so, so ∈ int_options -> isinstance_int (cfg_get c so.1 so.2) = true)
  /\ (forall so, so ∈ bool_options -> isinstance_bool (cfg_get c so.1 so.2) = true).

Definition ignore_args : args :=
  {| conf := "snapraid-runner.yml"; no_scrub := false;
     ignore_deletethreshold := true |}.

Definition forty_doc : yaml_doc :=
  DocMapping [("snapraid", SecMapping [("deletethreshold", PyStr "forty")])].

Lemma normalize_int_option a (c : config) so :
  so ∈ int_options ->
  cfg_get (normalize a c) so.1 so.2
  = if ignore_deletethreshold a && bool_decide (so = ("snapraid", "deletethreshold"))
    then PyInt (-1)
    else if isinstance_int (cfg_get c so.1 so.2) then cfg_get c so.1 so.2
         else PyInt 0.
Proof.
  unfold int_options. rewrite !elem_of_cons, elem_of_nil.
  intros [->|[->|[->|[]]]]; cbn [fst snd]; normalize_at;
    rewrite ?bool_decide_eq_true_2 by reflexivity;
    rewrite ?bool_decide_eq_false_2 by discriminate;
    reflexivity.
Qed.

Lemma normalize_bool_option a (c : config) so :
  so ∈ bool_options ->
  cfg_get (normalize a c) so.1 so.2
  = if no_scrub a && bool_decide (so = ("scrub", "enabled"))
    then PyBool false
    else if isinstance_bool (cfg_get c so.1 so.2) then cfg_get c so.1 so.2
         else PyBool false.
Proof.
  unfold bool_options. rewrite !elem_of_cons, elem_of_nil.
  intros [->|[->|[->|[]]]]; cbn [fst snd]; normalize_at;
    rewrite ?bool_decide_eq_true_2 by reflexivity;
    rewrite ?bool_decide_eq_false_2 by discriminate;
    try reflexivity; by destruct (isinstance_bool _).
Qed.

Lemma normalize_typed a (c : config) : typed (normalize a c).
Proof.
  split; intros so Hso.
  - rewrite normalize_int_option by done.
    destruct (_ && _); [done|].
    by destruct (isinstance_int (cfg_get c so.1 so.2)) eqn:E.
  - rewrite normalize_bool_option by done.
    destruct (_ && _); [done|].
    by destruct (isinstance_bool (cfg_get c so.1 so.2)) eqn:E.
Qed.

Lemma load_document_normalized a d cfg :
  load_document a d = inr cfg -> exists c, cfg = normalize a c.
Proof.
  destruct d as [secs|e]; simpl; [|done].
  destruct (load_sections empty_config secs) as [e|c]; [done|].
  intros [= <-]. by exists c.
Qed.

Lemma load_config_normalized env a cfg :
  result (load_config env a) = inr cfg -> exists c, cfg = normalize a c.
Proof.
  unfold load_config. intros (d & _ & H)%result_bind_inr.
  apply (load_document_normalized a d).
  destruct (load_document a d) as [e|c0]; [discriminate H|].
  by injection H as ->.
Qed.

(** The configuration [main] hands to [run] went through [normalize]. *)
Lemma setup_normalized env a cfg :
  result (setup env a) = inr cfg -> exists c, cfg = normalize a c.
Proof.
  unfold setup. intros (? & _ & H)%result_bind_inr.
  apply result_bind_inr in H as (cfg0 & Hload & H).
  apply result_bind_inr in H as (? & _ & H). injection H as <-.
  rewrite result_try in Hload.
  destruct (result (load_config env a)) as [[code|e]|c0] eqn:E; try done.
  injection Hload as <-. by apply (load_config_normalized env a).
Qed.

(** C7 (as the code has it): after loading, each of deletethreshold,
    logging maxsize and scrub older-than is an [int] instance (a [bool]
    counts as one and is kept) and each of touch, apprise short and scrub
    enabled is a [bool]; a declared-int field that held anything else is 0,
    except that deletethreshold is -1 whenever --ignore-deletethreshold was
    given; a declared-bool field that held a non-bool is false; and this is
    the configuration the run receives. *)
Theorem load_config_coerces env a (c : config) :
  typed (normalize a c)
  /\ (forall so, so ∈ int_options ->
        isinstance_int (cfg_get c so.1 so.2) = false ->
        cfg_get (normalize a c) so.1 so.2
        = if ignore_deletethreshold a
             && bool_decide (so = ("snapraid", "deletethreshold"))
          then PyInt (-1) else PyInt 0)
  /\ (forall so, so ∈ bool_options ->
        isinstance_bool (cfg_get c so.1 so.2) = false ->
        cfg_get (normalize a c) so.1 so.2 = PyBool false)
  /\ (forall secs,
        match load_sections empty_config secs with
        | inr raw => load_document a (DocMapping secs) = inr (normalize a raw)
        | inl e => load_document a (DocMapping secs) = inl e
        end)
  /\ (forall cfg, result (setup env a) = inr cfg -> typed cfg).
Proof.
  split; [apply normalize_typed|]. split; [|split; [|split]].
  - intros so Hso Hty. rewrite normalize_int_option by done. by rewrite Hty.
  - intros so Hso Hty. rewrite normalize_bool_option by done. rewrite Hty.
    by destruct (_ && _).
  - intros secs. simpl. by destruct (load_sections empty_config secs).
  - intros cfg (c0 & ->)%setup_normalized. apply normalize_typed.
Qed.

(** C7 (counterexample): the file gives deletethreshold the string "forty"
    and the command line has --ignore-deletethreshold; loading succeeds and
    the loaded value is -1, not 0. *)
Lemma ignore_flag_overrides_coercion :
  isinstance_int (PyStr "forty") = false
  /\ match load_document ignore_args forty_doc with
     | inr c =>
         cfg_get c "snapraid" "deletethreshold" = PyInt (-1)
         /\ cfg_get c "snapraid" "deletethreshold" <> PyInt 0
     | inl _ => False
     end.
Proof. split; [reflexivity|]. vm_compute. split; [reflexivity | discriminate]. Qed.

(** ** Notification on [sendon] *)











Lemma assign_items_other (sec : gmap string pyval) items (k : string) :
  k ∉ items.*1 -> assign_items sec items !! k = sec !! k.
Proof.
  unfold assign_items. revert sec.
  induction items as [|[k' v] items IH]; intros sec Hk; simpl; [done|].
  apply not_elem_of_cons in Hk as [Hne Hk]. rewrite IH by done.
  by rewrite lookup_insert_ne.
Qed.






(** ** The threshold gate and the sync decision *)

(** The number of lines of [diff_out] in category [c]. *)
Definition tally (diff_out : list string) (c : string) : nat :=
  count_occ string_dec (split_space_head <$> diff_out) c.

(** The sum line 260 tests. *)
Definition changes (diff_out : list string) : nat :=
  (tally diff_out "remove" + tally diff_out "add" + tally diff_out "move"
   + tally diff_out "update")%nat.

(** The remove count exceeds a threshold that is in force. *)
Definition exceeds (thr : Z) (diff_out : list string) : Prop :=
  0 <= thr /\ thr < Z.of_nat (tally diff_out "remove").

Definition apprise_ok : apprise_lib :=
  {| installed := true; add_urls := None; notify := fun _ _ => None;
     remove_attachment := None |}.

(** A child process that prints [out] and exits with [ret]. *)
Definition prints (out : list string) (ret : Z) : process :=
  {| p_stdout := out; p_stderr := []; p_sched := []; p_ret := ret |}.

(** An environment in which every file exists and every command succeeds;
    [diff] prints [diff_lines] and exits with 2 when there are any. *)
Definition env_with_diff (d : yaml_doc) (diff_lines : list string) : environment :=
  {| env_exists := fun _ => true;
     env_yaml_load := fun _ => inr d;
     env_file_handler := fun _ _ => None;
     env_attach_handler := fun _ => None;
     env_isfile := fun _ => inr true;
     env_popen := fun argv =>
       match argv with
       | _ :: PyStr "diff" :: _ =>
           inr (prints diff_lines (if diff_lines is [] then 0 else 2))
       | _ => inr (prints [] 0)
       end;
     env_apprise := apprise_ok |}.

Lemma analyze_get (diff_out : list string) c :
  c ∈ categories -> analyze diff_out !! c = Some (tally diff_out c).
Proof. intros Hc. rewrite analyze_lookup. by rewrite bool_decide_eq_true_2. Qed.

Lemma dict_get_analyze (diff_out : list string) c :
  c ∈ categories -> dict_get (analyze diff_out) c = ret (tally diff_out c).
Proof. intros Hc. unfold dict_get. by rewrite analyze_get. Qed.

Ltac category := unfold categories; rewrite !elem_of_cons; intuition congruence.

(** The summary line, with the four counts. *)
Lemma report_diff_analyze (diff_out : list string) :
  report_diff (analyze diff_out)
  = log INFO ("Diff results: " +:+ str_of_nat (tally diff_out "add")
              +:+ " added,  " +:+ str_of_nat (tally diff_out "remove")
              +:+ " removed,  " +:+ str_of_nat (tally diff_out "move")
              +:+ " moved,  " +:+ str_of_nat (tally diff_out "update")
              +:+ " modified").
Proof.
  unfold report_diff. rewrite !dict_get_analyze by category.
  by rewrite !bind_ret_l.
Qed.

(** The gate lets the run through unless the threshold is exceeded. *)
Lemma threshold_gate_passes env cfg (diff_out : list string) thr :
  int_value (cfg_get cfg "snapraid" "deletethreshold") = Some thr ->
  ~ exceeds thr diff_out ->
  threshold_gate env cfg (analyze diff_out) = ret tt.
Proof.
  intros Hthr Hn. unfold threshold_gate, as_int. rewrite Hthr, bind_ret_l.
  destruct (0 <=? thr)%Z eqn:E.
  - rewrite dict_get_analyze by category. rewrite !bind_ret_l.
    destruct (thr <? Z.of_nat (tally diff_out "remove"))%Z eqn:E'; [|done].
    destruct Hn. split; lia.
  - by rewrite bind_ret_l.
Qed.

(** An exceeded threshold ends the run in [finish(False)]. *)
Lemma threshold_gate_aborts env cfg (diff_out : list string) thr :
  int_value (cfg_get cfg "snapraid" "deletethreshold") = Some thr ->
  exceeds thr diff_out ->
  threshold_gate env cfg (analyze diff_out)
  = (log ERROR ("Deleted files exceed delete threshold of "
                +:+ str (cfg_get cfg "snapraid" "deletethreshold")
                +:+ ", aborting") >>
     log ERROR "Run again with --ignore-deletethreshold to sync anyways" >>
     finish env cfg false).
Proof.
  intros Hthr [H0 H1]. unfold threshold_gate, as_int. rewrite Hthr, bind_ret_l.
  apply Z.leb_le in H0 as ->. rewrite dict_get_analyze by category.
  rewrite !bind_ret_l. by apply Z.ltb_lt in H1 as ->.
Qed.

(** The sync decision on the analyzed diff. *)
Lemma sync_stage_analyze env cfg (diff_out : list string) :
  sync_stage env cfg (analyze diff_out)
  = if (changes diff_out =? 0)%nat
    then log INFO "No changes detected, no sync required"
    else
      log INFO "Running sync..." >>
      try_except is_CalledProcessError
        (snapraid_command env cfg "sync" [] [] >> ret tt)
        (fun e => emit (LogError e) >> finish env cfg false) >>
      log INFO stars.
Proof.
  unfold sync_stage. rewrite !dict_get_analyze by category.
  by rewrite !bind_ret_l.
Qed.

Lemma elem_of_commands (t : list event) c :
  c ∈ commands t <-> exists e, e ∈ t /\ command_of e = Some c.
Proof. unfold commands. apply list_elem_of_omap. Qed.

Lemma not_in_commands (t : list event) c :
  Forall (fun e => command_of e <> Some c) t -> c ∉ commands t.
Proof.
  intros Hall (e & He & Hc)%elem_of_commands.
  by apply (proj1 (Forall_forall _ _) Hall e).
Qed.

Lemma count_event_none (e0 : event) (t : list event) :
  Forall (fun e => e <> e0) t -> count (is_event e0) t = 0%nat.
Proof.
  intros H. apply count_none. eapply Forall_impl; [exact H|].
  intros e He. unfold is_event. by apply bool_decide_eq_false_2.
Qed.

(** Up to the diff, only touch and diff are ever invoked. *)
Lemma run_until_diff_no_sync env cfg :
  all (fun e => command_of e <> Some "sync") (run_until_diff env cfg).
Proof. all_walk atom_eval. Qed.

(** From the scrub decision on, sync is not invoked. *)
Lemma after_sync_no_sync env cfg :
  all (fun e => command_of e <> Some "sync")
    (scrub_stage env cfg >> log INFO "All done" >> finish env cfg true).
Proof. all_walk atom_eval. Qed.

Lemma run_until_diff_quiet env cfg :
  all (fun e => e <> no_sync_required) (run_until_diff env cfg).
Proof. all_walk atom_eval. Qed.

Lemma after_sync_quiet env cfg :
  all (fun e => e <> no_sync_required)
    (scrub_stage env cfg >> log INFO "All done" >> finish env cfg true).
Proof. all_walk atom_eval. Qed.

Lemma run_after_prefix env cfg (diff_out : list string) :
  result (run_until_diff env cfg) = inr diff_out ->
  trace (run env cfg)
  = (trace (run_until_diff env cfg) ++ trace (run_after_diff env cfg diff_out))%list
  /\ result (run env cfg) = result (run_after_diff env cfg diff_out).
Proof.
  intros H. unfold run. by rewrite trace_bind, result_bind, H.
Qed.

(** What [run] does after the diff when the gate lets it through. *)
Lemma run_after_diff_passed env cfg (diff_out : list string) thr :
  int_value (cfg_get cfg "snapraid" "deletethreshold") = Some thr ->
  ~ exceeds thr diff_out ->
  run_after_diff env cfg diff_out
  = (report_diff (analyze diff_out) >>
     sync_stage env cfg (analyze diff_out) >>
     scrub_stage env cfg >> log INFO "All done" >> finish env cfg true).
Proof.
  intros Hthr Hn. unfold run_after_diff.
  apply bind_ext; intros _.
  by rewrite (threshold_gate_passes env cfg diff_out thr Hthr Hn), bind_ret_l.
Qed.

Lemma no_changes_not_exceeded (diff_out : list string) thr :
  tally diff_out "remove" = 0%nat -> ~ exceeds thr diff_out.
Proof. intros H [H0 H1]. rewrite H in H1. simpl in H1. lia. Qed.

(** C6: for every run that got its diff output, with an integer
    deletethreshold as [load_config] leaves it, and whose diff has zero
    lines in all four categories: after the diff the run logs the summary
    line, then "No changes detected, no sync required", then goes on with
    the scrub decision; sync is not invoked anywhere in the run, and the "no
    sync required" record is logged exactly once. *)
Theorem no_changes_no_sync env cfg (diff_out : list string) thr :
  result (run_until_diff env cfg) = inr diff_out ->
  int_value (cfg_get cfg "snapraid" "deletethreshold") = Some thr ->
  (forall c, c ∈ categories -> analyze diff_out !! c = Some 0%nat) ->
  trace (run env cfg)
  = (trace (run_until_diff env cfg)
     ++ [Log INFO "Diff results: 0 added,  0 removed,  0 moved,  0 modified";
         no_sync_required]
     ++ trace (scrub_stage env cfg >> log INFO "All done" >> finish env cfg true))%list
  /\ ("sync" ∉ commands (trace (run env cfg)))
  /\ count (is_event no_sync_required) (trace (run env cfg)) = 1%nat.
Proof.
  intros Hres Hthr Hzero.
  assert (forall c, c ∈ categories -> tally diff_out c = 0%nat) as Ht.
  { intros c Hc. specialize (Hzero c Hc). rewrite analyze_get in Hzero by done.
    by injection Hzero. }
  assert (trace (run env cfg)
          = (trace (run_until_diff env cfg)
             ++ [Log INFO "Diff results: 0 added,  0 removed,  0 moved,  0 modified";
                 no_sync_required]
             ++ trace (scrub_stage env cfg >> log INFO "All done"
                       >> finish env cfg true))%list) as E.
  { destruct (run_after_prefix env cfg diff_out Hres) as [-> _]. f_equal.
    rewrite (run_after_diff_passed env cfg diff_out thr Hthr)
      by (apply no_changes_not_exceeded, Ht; category).
    rewrite report_diff_analyze, sync_stage_analyze. unfold changes.
    rewrite !Ht by category. simpl Nat.eqb. cbv iota.
    rewrite trace_bind. simpl. rewrite trace_bind. reflexivity. }
  split; [exact E|]. rewrite E. split.
  - apply not_in_commands. rewrite !Forall_app. split; [|split].
    + apply run_until_diff_no_sync.
    + repeat constructor; discriminate.
    + apply after_sync_no_sync.
  - rewrite !count_app.
    rewrite (count_event_none _ _ (run_until_diff_quiet env cfg)).
    rewrite (count_event_none _ _ (after_sync_quiet env cfg)).
    reflexivity.
Qed.

Definition quiet_env : environment := env_with_diff demo_doc [].

(** A run of the sample configuration whose diff prints nothing. *)
Lemma no_changes_no_sync_witness :
  ("sync" ∉ commands (trace (run quiet_env demo_config)))
  /\ count (is_event no_sync_required) (trace (run quiet_env demo_config)) = 1%nat.
Proof.
  apply (no_changes_no_sync quiet_env demo_config [] 5).
  - vm_compute. reflexivity.
  - vm_compute. reflexivity.
  - intros c Hc. rewrite analyze_get by done. reflexivity.
Defined.


Lemma trace_bind_stops {A B} (m : M A) (k : A -> M B) :
  (forall a, result m <> inr a) -> trace (bind m k) = trace m.
Proof.
  intros H. rewrite trace_bind. destruct (result m) as [r|a]; [|by destruct (H a)].
  by rewrite app_nil_r.
Qed.

Lemma result_bind_stops {A B} (m : M A) (k : A -> M B) :
  (forall a, result m <> inr a) ->
  exists r, result m = inl r /\ result (bind m k) = inl r.
Proof.
  intros H. rewrite result_bind.
  destruct (result m) as [r|a] eqn:E; [by exists r | by destruct (H a)].
Qed.

Lemma in_bind_l {A B} (m : M A) (k : A -> M B) e :
  e ∈ trace m -> e ∈ trace (bind m k).
Proof. intros H. rewrite trace_bind, elem_of_app. by left. Qed.

Lemma in_bind_r {A B} (m : M A) (k : A -> M B) a e :
  result m = inr a -> e ∈ trace (k a) -> e ∈ trace (bind m k).
Proof. intros Hr H. rewrite trace_bind, elem_of_app, Hr. by right. Qed.

Lemma in_try_l {A} c (body : M A) h e :
  e ∈ trace body -> e ∈ trace (try_except c body h).
Proof. intros H. rewrite trace_try, elem_of_app. by left. Qed.

Lemma finish_entered env cfg b :
  exists rest, trace (finish env cfg b) = Call_finish b :: rest.
Proof. unfold finish. rewrite trace_bind. simpl. by eexists. Qed.

Lemma finish_no_command env cfg b c :
  all (fun e => command_of e <> Some c) (finish env cfg b).
Proof. all_walk atom_eval. Qed.

(** The two error lines of the gate and [finish(False)]. *)
Definition abort_on_threshold env cfg : M unit :=
  log ERROR ("Deleted files exceed delete threshold of "
             +:+ str (cfg_get cfg "snapraid" "deletethreshold")
             +:+ ", aborting") >>
  log ERROR "Run again with --ignore-deletethreshold to sync anyways" >>
  finish env cfg false.

Lemma abort_on_threshold_result env cfg :
  result (abort_on_threshold env cfg) = result (finish env cfg false).
Proof. unfold abort_on_threshold. by rewrite !result_bind. Qed.

(** What [run] does after the diff when the threshold is exceeded: the
    summary line, the two error lines, [finish(False)], and nothing else. *)
Lemma run_after_diff_aborted env cfg (diff_out : list string) thr :
  int_value (cfg_get cfg "snapraid" "deletethreshold") = Some thr ->
  exceeds thr diff_out ->
  trace (run_after_diff env cfg diff_out)
  = (trace (report_diff (analyze diff_out)) ++ trace (abort_on_threshold env cfg))%list
  /\ result (run_after_diff env cfg diff_out) = result (finish env cfg false).
Proof.
  intros Hthr Hex. unfold run_after_diff.
  rewrite (threshold_gate_aborts env cfg diff_out thr Hthr Hex).
  fold (abort_on_threshold env cfg).
  assert (forall a, result (abort_on_threshold env cfg) <> inr a) as Hstop.
  { intros a. rewrite abort_on_threshold_result. apply finish_never_returns. }
  rewrite trace_bind, result_bind, report_diff_analyze. simpl.
  rewrite (trace_bind_stops _ _ Hstop).
  destruct (result_bind_stops (abort_on_threshold env cfg)
              (fun _ => sync_stage env cfg (analyze diff_out) >>
                        scrub_stage env cfg >> log INFO "All done" >>
                        finish env cfg true) Hstop) as (r & Hr & ->).
  split; [done|]. rewrite <- Hr. apply abort_on_threshold_result.
Qed.

(** A run that ends the way [finish(False)] ends has exit status 1. *)
Lemma guarded_run_failed env cfg :
  result (run env cfg) = result (finish env cfg false) ->
  exit_status (guarded_run env cfg) = 1.
Proof.
  intros H. pose proof (finish_false_status env cfg) as Hs.
  unfold exit_status in Hs. unfold exit_status, guarded_run.
  rewrite result_try, H.
  destruct (result (finish env cfg false)) as [[code|e]|[]] eqn:E; try done.
  unfold Exception. rewrite result_bind.
  change (result (emit (LogException "Run failed due to unexpected exception:" e)))
    with (@inr raised unit tt).
  cbv iota. by rewrite E.
Qed.

Lemma snapraid_command_popen_in env cfg command args allow :
  Popen (snapraid_argv cfg command args)
  ∈ trace (snapraid_command env cfg command args allow).
Proof. unfold snapraid_command. apply in_bind_l. by left. Qed.

(** Past the gate, sync is invoked exactly when some category is non-zero. *)
Lemma passed_sync_iff env cfg (diff_out : list string) thr :
  result (run_until_diff env cfg) = inr diff_out ->
  int_value (cfg_get cfg "snapraid" "deletethreshold") = Some thr ->
  ~ exceeds thr diff_out ->
  "sync" ∈ commands (trace (run env cfg)) <-> changes diff_out <> 0%nat.
Proof.
  intros Hres Hthr Hn.
  destruct (run_after_prefix env cfg diff_out Hres) as [-> _].
  rewrite (run_after_diff_passed env cfg diff_out thr Hthr Hn).
  rewrite report_diff_analyze, sync_stage_analyze.
  destruct (changes diff_out =? 0)%nat eqn:E.
  - apply Nat.eqb_eq in E. split; [|done]. intros Hin. exfalso. revert Hin.
    apply not_in_commands, Forall_app. split; [apply run_until_diff_no_sync|].
    match goal with |- Forall ?P (trace ?m) => change (all P m) end.
    all_walk atom_eval.
  - apply Nat.eqb_neq in E. split; [done|]. intros _.
    apply elem_of_commands. exists (Popen (snapraid_argv cfg "sync" [])).
    split; [|reflexivity]. rewrite elem_of_app. right.
    eapply in_bind_r; [reflexivity|]. apply in_bind_l.
    eapply in_bind_r; [reflexivity|]. apply in_bind_l, in_try_l, in_bind_l.
    apply snapraid_command_popen_in.
Qed.

(** C1 (as the code has it): for every run that got its diff output, with
    an integer deletethreshold: when the threshold is at least 0 and the
    remove count is strictly greater, the run ends in [finish(False)] with
    exit status 1 and sync is never invoked; when the remove count equals
    the threshold, and for every negative threshold whatever the remove
    count, the gate lets the run through, and sync is then invoked exactly
    when at least one of the four counts is not zero; sync is only ever
    invoked when the threshold is not exceeded. *)
Theorem threshold_gate_spec env cfg (diff_out : list string) thr :
  result (run_until_diff env cfg) = inr diff_out ->
  int_value (cfg_get cfg "snapraid" "deletethreshold") = Some thr ->
  (exceeds thr diff_out ->
     ("sync" ∉ commands (trace (run env cfg)))
     /\ Call_finish false ∈ trace (run env cfg)
     /\ exit_status (guarded_run env cfg) = 1)
  /\ (Z.of_nat (tally diff_out "remove") = thr ->
      threshold_gate env cfg (analyze diff_out) = ret tt
      /\ ("sync" ∈ commands (trace (run env cfg)) <-> changes diff_out <> 0%nat))
  /\ (thr < 0 ->
      threshold_gate env cfg (analyze diff_out) = ret tt
      /\ ("sync" ∈ commands (trace (run env cfg)) <-> changes diff_out <> 0%nat))
  /\ ("sync" ∈ commands (trace (run env cfg)) -> ~ exceeds thr diff_out).
Proof.
  intros Hres Hthr.
  assert (exceeds thr diff_out ->
          ("sync" ∉ commands (trace (run env cfg)))
          /\ Call_finish false ∈ trace (run env cfg)
          /\ exit_status (guarded_run env cfg) = 1) as Habort.
  { intros Hex.
    destruct (run_after_prefix env cfg diff_out Hres) as [Et Er].
    destruct (run_after_diff_aborted env cfg diff_out thr Hthr Hex) as [Et' Er'].
    rewrite Et' in Et. rewrite Er' in Er. split; [|split].
    - rewrite Et. apply not_in_commands. rewrite !Forall_app. split; [|split].
      + apply run_until_diff_no_sync.
      + rewrite report_diff_analyze. repeat constructor. discriminate.
      + unfold abort_on_threshold.
        match goal with |- Forall ?P (trace ?m) => change (all P m) end.
        all_walk atom_eval.
    - rewrite Et, !elem_of_app. right. right. unfold abort_on_threshold.
      eapply in_bind_r; [reflexivity|]. eapply in_bind_r; [reflexivity|].
      destruct (finish_entered env cfg false) as [rest ->]. by left.
    - by apply guarded_run_failed. }
  assert (~ exceeds thr diff_out ->
          threshold_gate env cfg (analyze diff_out) = ret tt
          /\ ("sync" ∈ commands (trace (run env cfg)) <-> changes diff_out <> 0%nat))
    as Hpass.
  { intros Hn. split; [by apply (threshold_gate_passes env cfg diff_out thr)|].
    by apply (passed_sync_iff env cfg diff_out thr). }
  split; [exact Habort|]. split; [|split].
  - intros Heq. apply Hpass. intros [_ H]. lia.
  - intros Hneg. apply Hpass. intros [H _]. lia.
  - intros Hin Hex. by destruct (Habort Hex) as [Hnot _].
Qed.

(** Five removals and one addition against the sample threshold of five. *)
Definition five_removals : list string :=
  ["remove a"; "remove b"; "remove c"; "remove d"; "remove e"; "add f"].

Definition busy_env : environment := env_with_diff demo_doc five_removals.

(** With the remove count equal to the threshold of 5 the sample run syncs. *)
Lemma threshold_gate_spec_witness :
  "sync" ∈ commands (trace (run busy_env demo_config)).
Proof.
  destruct (threshold_gate_spec busy_env demo_config five_removals 5)
    as (_ & Heq & _).
  - vm_compute. reflexivity.
  - vm_compute. reflexivity.
  - destruct Heq as [_ Hsync]; [reflexivity|]. apply Hsync. discriminate.
Defined.

Definition zero_threshold_doc : yaml_doc :=
  DocMapping
    [("snapraid", SecMapping [("executable", PyStr "/usr/bin/snapraid");
                              ("config", PyStr "/etc/snapraid.conf");
                              ("deletethreshold", PyInt 0)])].

(** C1 (counterexample): deletethreshold is 0 and the diff prints nothing,
    so the remove count, 0, equals the threshold; the gate lets the run
    through, yet the run logs "no sync required" and never invokes sync. *)
Lemma equal_threshold_without_sync :
  let cfg := config_of demo_args zero_threshold_doc in
  let env := env_with_diff zero_threshold_doc [] in
  int_value (cfg_get cfg "snapraid" "deletethreshold") = Some 0
  /\ result (run_until_diff env cfg) = inr []
  /\ Z.of_nat (tally [] "remove") = 0
  /\ commands (trace (run env cfg)) = ["diff"]
  /\ ("sync" ∉ commands (trace (run env cfg)))
  /\ count (is_event no_sync_required) (trace (run env cfg)) = 1%nat.
Proof.
  assert (commands (trace (run (env_with_diff zero_threshold_doc [])
                              (config_of demo_args zero_threshold_doc)))
          = ["diff"]) as E by (vm_compute; reflexivity).
  intros cfg env. subst cfg env.
  split; [vm_compute; reflexivity|]. split; [vm_compute; reflexivity|].
  split; [reflexivity|]. split; [exact E|]. split.
  - rewrite E. rewrite list_elem_of_singleton. discriminate.
  - vm_compute. reflexivity.
Qed.

(** ** One finalize call, and the exit status *)

(** One of the three guarded setup steps of [main] failed. *)
Definition setup_fails (env : environment) (a : args) : Prop :=
  env_exists env (conf a) = false
  \/ (exists e, result (load_config env a) = inl (Exc e))
  \/ (exists cfg e, result (load_config env a) = inr cfg
                    /\ result (setup_logger env cfg) = inl (Exc e)).

Definition is_print (e : event) : bool :=
  match e with Print _ | PrintHelp | PrintTraceback _ => true | _ => false end.

Lemma result_run env cfg :
  result (run env cfg)
  = match result (steps env cfg) with
    | inl r => inl r
    | inr _ => result (finish env cfg true)
    end.
Proof.
  rewrite run_steps, result_bind. destruct (result (steps env cfg)); [done|].
  by rewrite result_bind.
Qed.

(** [finish(True)] ends in [sys.exit(0)] or in an exception. *)
Lemma finish_true_result env cfg :
  result (finish env cfg true) = inl (SystemExit 0)
  \/ exists e, result (finish env cfg true) = inl (Exc e).
Proof.
  pose proof (finish_exit_code env cfg true) as Hc.
  pose proof (finish_never_returns env cfg true) as Hr.
  destruct (result (finish env cfg true)) as [[code|e]|[]] eqn:E.
  - left. by rewrite (Hc code E).
  - right. by exists e.
  - by destruct (Hr tt).
Qed.

Lemma result_guarded_run_handler env cfg e :
  result (emit (LogException "Run failed due to unexpected exception:" e) >>
          finish env cfg false)
  = result (finish env cfg false).
Proof. by rewrite result_bind. Qed.

(** The exit status of the guarded run: 0 when all steps return and
    [finish(True)] gets to its [sys.exit(0)], 1 in every other case. *)
Lemma guarded_run_exit_status env cfg :
  (result (steps env cfg) = inr tt
   /\ result (finish env cfg true) = inl (SystemExit 0)
   /\ exit_status (guarded_run env cfg) = 0)
  \/ ((result (steps env cfg) <> inr tt
       \/ exists e, result (finish env cfg true) = inl (Exc e))
      /\ exit_status (guarded_run env cfg) = 1).
Proof.
  pose proof (finish_false_status env cfg) as Hf. unfold exit_status in Hf.
  unfold exit_status, guarded_run.
  rewrite result_try, result_run.
  destruct (result (steps env cfg)) as [[code|e]|[]] eqn:Es.
  - right. split; [by left|]. apply (steps_exit_code env cfg code Es).
  - right. split; [by left|]. unfold Exception.
    by rewrite result_guarded_run_handler.
  - destruct (finish_true_result env cfg) as [->|[e ->]].
    + by left.
    + right. split; [right; by exists e|]. unfold Exception.
      by rewrite result_guarded_run_handler.
Qed.

(** A step that did not return makes the exit status 1. *)
Lemma failed_steps_status env cfg :
  result (steps env cfg) <> inr tt -> exit_status (guarded_run env cfg) = 1.
Proof.
  intros H. destruct (guarded_run_exit_status env cfg) as [[Hs _]|[_ ->]]; [|done].
  by destruct H.
Qed.

(** With a string in [sendon] the exit status tells whether all steps
    returned. *)
Lemma guarded_run_status_string env cfg s :
  cfg_get cfg "apprise" "sendon" = PyStr s ->
  (result (steps env cfg) = inr tt /\ exit_status (guarded_run env cfg) = 0)
  \/ (result (steps env cfg) <> inr tt /\ exit_status (guarded_run env cfg) = 1).
Proof.
  intros Hs. destruct (guarded_run_exit_status env cfg) as [(H & _ & E)|[[H|[e H]] E]].
  - by left.
  - by right.
  - rewrite (finish_exits env cfg true s Hs) in H. discriminate H.
Qed.

Lemma load_config_result env a :
  (exists e, result (load_config env a) = inl (Exc e))
  \/ exists cfg, result (load_config env a) = inr cfg.
Proof.
  unfold load_config. rewrite result_bind.
  destruct (env_yaml_load env (conf a)) as [e|d]; simpl; [left; by exists e|].
  destruct (load_document a d) as [e|cfg]; simpl; [left; by exists e|].
  right. by exists cfg.
Qed.

Lemma setup_logger_result env cfg :
  (exists e, result (setup_logger env cfg) = inl (Exc e))
  \/ result (setup_logger env cfg) = inr tt.
Proof.
  assert (exits_sat (fun _ : Z => False) (setup_logger env cfg)) as Hx
    by (unfold setup_logger; exits_walk).
  destruct (result (setup_logger env cfg)) as [[code|e]|[]] eqn:E.
  - destruct (Hx code E).
  - left. by exists e.
  - by right.
Qed.

(** [setup] exits with 2 when a step fails and returns the loaded
    configuration otherwise. *)
Lemma setup_result env a :
  (setup_fails env a /\ result (setup env a) = inl (SystemExit 2))
  \/ (~ setup_fails env a
      /\ exists cfg, result (load_config env a) = inr cfg
                     /\ result (setup env a) = inr cfg).
Proof.
  unfold setup_fails, setup. rewrite result_bind.
  destruct (env_exists env (conf a)) eqn:Ee; simpl; [|left; split; [by left|done]].
  rewrite result_bind, result_try.
  destruct (load_config_result env a) as [[e He]|[cfg Hc]].
  - left. split; [right; left; by exists e|]. by rewrite He.
  - rewrite Hc. rewrite result_bind, result_try.
    destruct (setup_logger_result env cfg) as [[e He]|Hl].
    + left. split; [right; right; by exists cfg, e|]. by rewrite He.
    + rewrite Hl. right. split; [|by exists cfg].
      intros [H|[[e H]|(cfg' & e & H1 & H2)]]; [done|congruence|].
      injection H1 as <-. congruence.
Qed.

(** The setup steps only print. *)
Lemma setup_prints env a : all (fun e => is_print e = true) (setup env a).
Proof. unfold setup, load_config, setup_logger. all_walk atom_eval. Qed.

Lemma main_result env a :
  result (main env a)
  = match result (setup env a) with
    | inl r => inl r
    | inr cfg => result (guarded_run env cfg)
    end.
Proof. unfold main. apply result_bind. Qed.

(** The child process started with [argv] fails: it cannot be started, or
    it exits with a status other than 0 and, for diff, other than 2. *)
Definition command_fails (env : environment) (argv : list pyval) : Prop :=
  match env_popen env argv with
  | inl _ => True
  | inr p => p_ret p <> 0 /\ (command_of (Popen argv) = Some "diff" -> p_ret p <> 2)
  end.

(** *** Every command of a computation that returns succeeded *)

Section Started.

Variable env : environment.

Definition started_ok {A} (m : M A) : Prop :=
  forall a, result m = inr a ->
    Forall (fun e => forall argv, e = Popen argv -> ~ command_fails env argv)
      (trace m).

Lemma started_ok_silent {A} (m : M A) :
  all (fun e => is_popen e = false) m -> started_ok m.
Proof.
  intros H a _. eapply Forall_impl; [exact H|].
  intros e He argv ->. discriminate He.
Qed.

Lemma started_ok_stops {A} (m : M A) :
  (forall a, result m <> inr a) -> started_ok m.
Proof. intros H a Ha. by destruct (H a). Qed.

Lemma started_ok_bind {A B} (m : M A) (k : A -> M B) :
  started_ok m -> (forall a, result m = inr a -> started_ok (k a)) ->
  started_ok (bind m k).
Proof.
  intros Hm Hk b Hb. destruct (result_bind_inr m k b Hb) as (a & Ha & Hka).
  rewrite trace_bind, Ha. apply Forall_app. split; [by apply (Hm a)|].
  by apply (Hk a Ha b).
Qed.

Lemma started_ok_try {A} c (body : M A) h :
  started_ok body ->
  (forall e, result body = inl (Exc e) -> forall a, result (h e) <> inr a) ->
  started_ok (try_except c body h).
Proof.
  intros Hb Hh a. rewrite result_try, trace_try.
  destruct (result body) as [[code|e]|a'] eqn:E; try done.
  - destruct (c e); [|done]. intros Ha. by destruct (Hh e eq_refl a).
  - intros [= <-]. rewrite app_nil_r. by apply (Hb a').
Qed.

(** A command that returns was started and exited with an allowed status. *)
Lemma started_ok_snapraid_command cfg command (args : list (string * pyval))
    (allow : list Z) :
  (forall z, z ∈ allow -> command = "diff" /\ z = 2) ->
  started_ok (snapraid_command env cfg command args allow).
Proof.
  intros Hal out Hout.
  assert (forall argv, Popen argv ∈ trace (snapraid_command env cfg command args allow) ->
            argv = snapraid_argv cfg command args) as Honly.
  { intros argv Hin.
    assert (In (Popen argv)
              (List.filter is_popen
                 (trace (snapraid_command env cfg command args allow)))) as Hf
      by (apply List.filter_In; split; [by apply list_elem_of_In | done]).
    rewrite snapraid_command_popen in Hf. destruct Hf as [[= <-]|[]]. done. }
  apply Forall_forall. intros e He argv ->. rewrite (Honly argv He).
  unfold command_fails. unfold snapraid_command in Hout. cbv zeta in Hout.
  apply result_bind_inr in Hout as (? & _ & Hout).
  apply result_bind_inr in Hout as (p & Hp & Hout).
  destruct (env_popen env (snapraid_argv cfg command args)) as [e|p'];
    [discriminate Hp|].
  injection Hp as ->.
  apply result_bind_inr in Hout as (? & _ & Hout).
  apply result_bind_inr in Hout as (? & _ & Hout).
  intros [Hne Hdiff].
  destruct (Z.eqb_spec (p_ret p) 0) as [H0|_]; [done|]. cbn [orb] in Hout.
  destruct (existsb (Z.eqb (p_ret p)) allow) eqn:Ex; [|discriminate Hout].
  apply existsb_exists in Ex as (z & Hz & Heq).
  apply Z.eqb_eq in Heq. apply list_elem_of_In in Hz.
  destruct (Hal z Hz) as [-> ->]. by apply Hdiff.
Qed.

End Started.

(** The handler of a failed command logs the error and calls
    [finish(False)], which never returns. *)
Lemma command_handler_never_returns env cfg e u :
  result (emit (LogError e) >> finish env cfg false) <> inr u.
Proof.
  intros H. apply result_bind_inr in H as (? & _ & H).
  by apply finish_never_returns in H.
Qed.

(** Walks a goal [started_ok env m] down the structure of [m]. *)
Ltac started_walk :=
  repeat
    lazymatch goal with
    | |- started_ok _ (snapraid_command _ _ _ _ _) =>
        apply started_ok_snapraid_command;
        intros ?; rewrite ?elem_of_cons, ?elem_of_nil; intuition congruence
    | |- started_ok _ (finish _ _ _) =>
        apply started_ok_stops, finish_never_returns
    | |- started_ok _ (bind _ _) => apply started_ok_bind; [| intros ? _]
    | |- started_ok _ (try_except _ _ _) =>
        apply started_ok_try;
          [| intros ? _ ?; apply command_handler_never_returns]
    | |- started_ok _ (if _ then _ else _) => split_branch
    | |- started_ok _ (match _ with _ => _ end) => split_branch
    | |- started_ok _ _ =>
        first [ apply started_ok_silent; solve [all_walk atom_eval]
              | unfold_stages ]
    end.

(** When all steps of a run return, no command it started failed. *)
Lemma steps_started_ok env cfg : started_ok env (steps env cfg).
Proof. started_walk. Qed.

Lemma popen_in_filter (t : list event) argv :
  Popen argv ∈ t <-> In (Popen argv) (List.filter is_popen t).
Proof.
  rewrite List.filter_In, <- list_elem_of_In. split; [by intros ?|by intros [? _]].
Qed.

(** Every child process of [main] is started by one of the steps. *)
Lemma main_popen_in_steps env a cfg argv :
  result (setup env a) = inr cfg ->
  Popen argv ∈ trace (main env a) -> Popen argv ∈ trace (steps env cfg).
Proof.
  intros Hc. rewrite !popen_in_filter. unfold main.
  rewrite trace_bind, Hc, List.filter_app.
  rewrite (filter_none is_popen (trace (setup env a))).
  2: { eapply Forall_impl; [apply setup_prints|]. by intros [] ?. }
  cbn [app]. unfold guarded_run.
  rewrite filter_try_r by (intros; all_walk atom_eval).
  rewrite run_steps.
  by rewrite filter_bind_r by (intros; all_walk atom_eval).
Qed.

Lemma main_status env a cfg :
  result (setup env a) = inr cfg ->
  exit_status (main env a) = exit_status (guarded_run env cfg).
Proof. intros Hc. unfold exit_status. by rewrite main_result, Hc. Qed.

(** C4 (as the code has it): the exit status of [main] is 2 exactly when a
    setup step fails (the configuration file is missing, loading it raises,
    or setting up logging raises), and then nothing but printing has
    happened. When setup returned a configuration, the status is 1 whenever
    some step before "All done" did not return; in particular when the
    remove count exceeds a threshold in force, and when a child process of
    the run could not be started or exited with a status that is not
    allowed. With a string in [sendon] the status is 0 exactly when all
    steps returned, and 1 exactly when one did not. *)
Theorem exit_status_contract env a :
  (exit_status (main env a) = 2 <-> setup_fails env a)
  /\ (setup_fails env a ->
        Forall (fun e => is_print e = true) (trace (main env a)))
  /\ (forall cfg, result (setup env a) = inr cfg ->
        (result (steps env cfg) <> inr tt -> exit_status (main env a) = 1)
        /\ (forall diff_out thr,
              result (run_until_diff env cfg) = inr diff_out ->
              int_value (cfg_get cfg "snapraid" "deletethreshold") = Some thr ->
              exceeds thr diff_out -> exit_status (main env a) = 1)
        /\ (forall argv,
              Popen argv ∈ trace (main env a) -> command_fails env argv ->
              exit_status (main env a) = 1)
        /\ (forall s, cfg_get cfg "apprise" "sendon" = PyStr s ->
              (exit_status (main env a) = 0 <-> result (steps env cfg) = inr tt)
              /\ (exit_status (main env a) = 1
                  <-> result (steps env cfg) <> inr tt))).
Proof.
  destruct (setup_result env a) as [[Hf Hr]|[Hn (cfg & _ & Hr)]].
  - assert (exit_status (main env a) = 2) as E
      by (unfold exit_status; by rewrite main_result, Hr).
    split; [by rewrite E|]. split.
    + intros _. unfold main. rewrite trace_bind, Hr, app_nil_r.
      apply setup_prints.
    + intros cfg Hc. congruence.
  - split; [|split].
    + rewrite (main_status env a cfg Hr).
      destruct (guarded_run_exit_status env cfg) as [(_ & _ & ->)|[_ ->]];
        split; try done; intros H; by destruct (Hn H).
    + intros H. by destruct (Hn H).
    + intros cfg' Hc. assert (cfg' = cfg) as -> by congruence.
      rewrite (main_status env a cfg Hr).
      split; [apply failed_steps_status|]. split; [|split].
      * intros diff_out thr Hd Hthr Hex. apply guarded_run_failed.
        destruct (run_after_prefix env cfg diff_out Hd) as [_ ->].
        by destruct (run_after_diff_aborted env cfg diff_out thr Hthr Hex).
      * intros argv Hin Hfail. apply failed_steps_status. intros Hok.
        apply (main_popen_in_steps env a cfg argv Hr) in Hin.
        pose proof (steps_started_ok env cfg tt Hok) as Hall.
        by apply (proj1 (Forall_forall _ _) Hall (Popen argv) Hin argv).
      * intros s Hs.
        destruct (guarded_run_status_string env cfg s Hs) as [[H ->]|[H ->]];
          split; split; done.
Qed.

(** C3 (as the code has it): when [sendon] is a string, every guarded run
    enters [finish] exactly once, whatever made it fail, and exits with the
    code of that call's argument, which is [True] exactly when all steps
    returned; and when the notification attempt inside [finish] raises, the
    exception is logged and [finish] still exits with that code. *)
Theorem finish_called_once env cfg s :
  cfg_get cfg "apprise" "sendon" = PyStr s ->
  (exists b : bool,
     List.filter is_finish (trace (guarded_run env cfg)) = [Call_finish b]
     /\ result (guarded_run env cfg) = inl (SystemExit (if b then 0 else 1))
     /\ (b = true <-> result (steps env cfg) = inr tt))
  /\ (forall (b : bool) e,
        contains (outcome_name b) s = true ->
        result (send_apprise_notification env cfg b) = inl (Exc e) ->
        LogException "Failed to send notification" e ∈ trace (finish env cfg b)
        /\ result (finish env cfg b) = inl (SystemExit (if b then 0 else 1))).
Proof.
  intros Hs. split.
  - pose proof (guarded_run_finalized env cfg s Hs) as Hfin.
    pose proof (guarded_run_status_string env cfg s Hs) as Hst.
    unfold finalized in Hfin. unfold exit_status in Hst.
    assert (exists code, result (guarded_run env cfg) = inl (SystemExit code))
      as [code Hcode].
    { unfold guarded_run. rewrite result_try.
      pose proof (run_never_returns env cfg) as Hnr.
      destruct (result (run env cfg)) as [[code|e]|[]].
      - by exists code.
      - unfold Exception. rewrite result_guarded_run_handler.
        rewrite (finish_exits env cfg false s Hs). by eexists.
      - by destruct (Hnr tt). }
    rewrite Hcode in Hfin, Hst. destruct Hfin as (b & Hb & ->).
    exists b. split; [done|]. split; [by rewrite Hcode|].
    destruct Hst as [[Hsteps Hz]|[Hno Hz]]; destruct b; done.
  - intros b e Hc Hraise. split; [|by apply (finish_exits env cfg b s)].
    unfold finish. rewrite Hs. simpl py_in. rewrite Hc.
    eapply in_bind_r; [reflexivity|]. eapply in_bind_r; [reflexivity|].
    apply in_bind_l. rewrite trace_try, Hraise, elem_of_app. right.
    unfold Exception. by left.
Qed.

(** The sample run enters [finish] once. *)
Lemma finish_called_once_witness :
  exists b : bool,
    List.filter is_finish (trace (guarded_run quiet_env demo_config))
    = [Call_finish b]
    /\ result (guarded_run quiet_env demo_config)
       = inl (SystemExit (if b then 0 else 1))
    /\ (b = true <-> result (steps quiet_env demo_config) = inr tt).
Proof.
  destruct (finish_called_once quiet_env demo_config "success,error") as [H _].
  - vm_compute. reflexivity.
  - exact H.
Defined.

Definition null_sendon_doc : yaml_doc :=
  DocMapping
    [("snapraid", SecMapping [("executable", PyStr "/usr/bin/snapraid");
                              ("config", PyStr "/etc/snapraid.conf")]);
     ("apprise", SecMapping [("sendon", PyNone)])].

(** An environment in which the configuration loads and no file of the
    snapraid section exists. *)
Definition env_without_snapraid (d : yaml_doc) : environment :=
  {| env_exists := fun _ => true;
     env_yaml_load := fun _ => inr d;
     env_file_handler := fun _ _ => None;
     env_attach_handler := fun _ => None;
     env_isfile := fun _ => inr false;
     env_popen := fun _ => inl OSError;
     env_apprise := apprise_ok |}.

(** C3 (counterexample): the file sets [sendon] to null and the snapraid
    executable is missing. The precondition failure calls [finish(False)],
    whose membership test raises; the handler of [main] catches that and
    calls [finish(False)] again: two calls in one run. *)
Lemma finish_called_twice :
  List.filter is_finish (trace (main (env_without_snapraid null_sendon_doc) demo_args))
  = [Call_finish false; Call_finish false]
  /\ result (main (env_without_snapraid null_sendon_doc) demo_args)
     = inl (Exc TypeError).
Proof. split; vm_compute; reflexivity. Qed.

(** The sample run, whose diff prints nothing: every step returns and the
    exit status is 0. *)
Lemma exit_status_contract_witness : exit_status (main quiet_env demo_args) = 0.
Proof.
  destruct (exit_status_contract quiet_env demo_args) as (_ & _ & H).
  destruct (H demo_config) as (_ & _ & _ & Hs).
  - vm_compute. reflexivity.
  - destruct (Hs "success,error") as [H0 _].
    + vm_compute. reflexivity.
    + apply H0. vm_compute. reflexivity.
Defined.

(** C4 (counterexample): the file sets [sendon] to null; every file exists
    and every command succeeds. Setup returns the configuration, all steps
    of the run return and "All done" is logged, yet the membership test of
    [finish(True)] raises, the one of the [finish(False)] that the handler
    of [main] calls raises again, and the exit status is 1. *)
Lemma all_done_with_status_1 :
  let env := env_with_diff null_sendon_doc [] in
  match result (setup env demo_args) with
  | inr cfg =>
      cfg_get cfg "apprise" "sendon" = PyNone
      /\ result (steps env cfg) = inr tt
      /\ Log INFO "All done" ∈ trace (main env demo_args)
      /\ result (main env demo_args) = inl (Exc TypeError)
      /\ exit_status (main env demo_args) = 1
  | inl _ => False
  end.
Proof.
  vm_compute. repeat split.
  apply list_elem_of_In. vm_compute. tauto.
Qed.

(** * Further properties of the script *)

(** ** The result of a command *)

Lemma existsb_eqb_elem_of (z : Z) (l : list Z) :
  existsb (Z.eqb z) l = bool_decide (z ∈ l).
Proof.
  induction l as [|x l IH]; cbn [existsb].
  - symmetry. apply bool_decide_eq_false_2, not_elem_of_nil.
  - rewrite IH. destruct (Z.eqb_spec z x) as [->|Hne]; cbn [orb].
    + symmetry. apply bool_decide_eq_true_2. by left.
    + apply bool_decide_ext. rewrite elem_of_cons. tauto.
Qed.

Lemma tee_thread_out h (lines out : list string) level :
  (tee_thread h lines out level).2 = (out ++ until_eof lines)%list.
Proof. by rewrite tee_thread_until_eof. Qed.

Lemma snapraid_command_ran env cfg command (args : list (string * pyval))
    (allow : list Z) p :
  env_popen env (snapraid_argv cfg command args) = inr p ->
  result (snapraid_command env cfg command args allow)
  = if bool_decide (p_ret p = 0 \/ p_ret p ∈ allow)
    then inr (until_eof (p_stdout p))
    else inl (Exc (CalledProcessError (p_ret p) ("snapraid " +:+ command))).
Proof.
  intros Ep. unfold snapraid_command. rewrite Ep.
  rewrite !result_bind. simpl. rewrite existsb_eqb_elem_of, tee_thread_out.
  destruct (Z.eqb_spec (p_ret p) 0) as [H0|H0]; simpl.
  - rewrite bool_decide_eq_true_2; [done | by left].
  - destruct (bool_decide (p_ret p ∈ allow)) eqn:E.
    + apply bool_decide_eq_true_1 in E.
      rewrite bool_decide_eq_true_2; [done | by right].
    + apply bool_decide_eq_false_1 in E.
      rewrite bool_decide_eq_false_2; [done | tauto].
Qed.

(** When the child process cannot be started, [snapraid_command] raises
    what [Popen] raised, having done nothing else; when it ran, the command
    returns the raw lines of its standard output, in order, if the exit
    status is 0 or one of [allow_statuscodes], and raises
    [CalledProcessError] with the status and "snapraid <command>"
    otherwise. The standard error lines are never part of the result. *)
Theorem snapraid_command_result env cfg command (args : list (string * pyval))
    (allow : list Z) :
  match env_popen env (snapraid_argv cfg command args) with
  | inl e =>
      snapraid_command env cfg command args allow
      = MkM [Popen (snapraid_argv cfg command args)] (inl (Exc e))
  | inr p =>
      result (snapraid_command env cfg command args allow)
      = if bool_decide (p_ret p = 0 \/ p_ret p ∈ allow)
        then inr (until_eof (p_stdout p))
        else inl (Exc (CalledProcessError (p_ret p) ("snapraid " +:+ command)))
  end.
Proof.
  destruct (env_popen env (snapraid_argv cfg command args)) as [e|p] eqn:Ep.
  - unfold snapraid_command. by rewrite Ep.
  - by apply snapraid_command_ran.
Qed.

(** ** The log of a command *)

Definition is_log_at (level : Z) (e : event) : bool :=
  match e with Log l _ => (l =? level)%Z | _ => false end.

Lemma filter_interleave_l (p : event -> bool) sched (xs ys : list event) :
  Forall (fun e => p e = false) ys ->
  List.filter p (interleave sched xs ys) = List.filter p xs.
Proof.
  intros Hy. revert xs ys Hy.
  induction sched as [|[] sched IH]; intros xs ys Hy; simpl.
  - by rewrite List.filter_app, (filter_none p ys Hy), app_nil_r.
  - destruct xs as [|x xs]; simpl; [by apply filter_none|].
    by rewrite IH.
  - destruct Hy as [|y ys Hy Hys]; [done|]. simpl. rewrite Hy. by apply IH.
Qed.

Lemma filter_interleave_r (p : event -> bool) sched (xs ys : list event) :
  Forall (fun e => p e = false) xs ->
  List.filter p (interleave sched xs ys) = List.filter p ys.
Proof.
  intros Hx. revert xs ys Hx.
  induction sched as [|[] sched IH]; intros xs ys Hx; simpl.
  - by rewrite List.filter_app, (filter_none p xs Hx).
  - destruct Hx as [|x xs Hx Hxs]; [done|]. simpl. rewrite Hx. by apply IH.
  - destruct ys as [|y ys]; simpl; [by apply filter_none|].
    by rewrite IH.
Qed.

Lemma interleave_length {A} sched (xs ys : list A) :
  length (interleave sched xs ys) = (length xs + length ys)%nat.
Proof.
  revert xs ys. induction sched as [|[] sched IH]; intros xs ys; simpl.
  - by rewrite length_app.
  - destruct xs as [|x xs]; simpl; [done|]. by rewrite IH.
  - destruct ys as [|y ys]; simpl; [lia|]. rewrite IH. simpl. lia.
Qed.

Lemma filter_log_at_logs level (f : string -> string) (ls : list string) :
  List.filter (is_log_at level) (Log level ∘ f <$> ls) = (Log level ∘ f <$> ls).
Proof.
  induction ls as [|l ls IH]; [done|]. rewrite fmap_cons.
  cbn [List.filter is_log_at compose]. rewrite Z.eqb_refl. by f_equal.
Qed.

Lemma filter_log_at_tee level h (lines out : list string) :
  List.filter (is_log_at level) (tee_thread h lines out level).1
  = (Log level ∘ rstrip <$> until_eof lines).
Proof.
  rewrite tee_thread_until_eof. cbn [fst]. rewrite List.filter_app.
  rewrite filter_log_at_logs. cbn [List.filter is_log_at]. by rewrite app_nil_r.
Qed.

Lemma filter_log_at_other level level' h (lines out : list string) :
  level <> level' ->
  Forall (fun e => is_log_at level e = false) (tee_thread h lines out level').1.
Proof.
  intros Hne. apply all_tee_thread; [done|]. intros s. simpl.
  by apply Z.eqb_neq.
Qed.

(** Whatever the order in which the two reader threads get to log, a
    command that ran logs every standard output line once, in order, at
    level OUTPUT with its trailing whitespace removed, and every standard
    error line once, in order, at level OUTERR; it closes each pipe once and
    sleeps after both readers are done, as its last action. *)
Theorem snapraid_command_log env cfg command (args : list (string * pyval))
    (allow : list Z) :
  match env_popen env (snapraid_argv cfg command args) with
  | inl _ => True
  | inr p =>
      let t := trace (snapraid_command env cfg command args allow) in
      List.filter (is_log_at OUTPUT) t = (Log OUTPUT ∘ rstrip <$> until_eof (p_stdout p))
      /\ List.filter (is_log_at OUTERR) t
         = (Log OUTERR ∘ rstrip <$> until_eof (p_stderr p))
      /\ count (is_event (Close Stdout)) t = 1%nat
      /\ count (is_event (Close Stderr)) t = 1%nat
      /\ last t = Some Sleep
      /\ length t
         = (length (until_eof (p_stdout p)) + length (until_eof (p_stderr p)) + 4)%nat
  end.
Proof.
  destruct (env_popen env (snapraid_argv cfg command args)) as [e|p] eqn:Ep; [done|].
  assert (trace (snapraid_command env cfg command args allow)
          = (Popen (snapraid_argv cfg command args)
             :: interleave (p_sched p)
                  (tee_thread Stdout (p_stdout p) [] OUTPUT).1
                  (tee_thread Stderr (p_stderr p) [] OUTERR).1
             ++ [Sleep])%list) as ->.
  { unfold snapraid_command. rewrite Ep. cbn [lift].
    rewrite !trace_bind. cbn [trace result emit emits ret].
    destruct (_ || _); cbn [trace raise ret]; by rewrite ?app_nil_r. }
  cbv zeta. split; [|split; [|split; [|split; [|split]]]].
  - simpl. rewrite List.filter_app. simpl. rewrite app_nil_r.
    rewrite filter_interleave_l by (by apply filter_log_at_other).
    apply filter_log_at_tee.
  - simpl. rewrite List.filter_app. simpl. rewrite app_nil_r.
    rewrite filter_interleave_r by (by apply filter_log_at_other).
    apply filter_log_at_tee.
  - unfold count. simpl. rewrite List.filter_app. simpl. rewrite app_nil_r.
    rewrite filter_interleave_l
      by (apply all_tee_thread; [done | intros s; reflexivity]).
    rewrite tee_thread_until_eof. simpl. rewrite List.filter_app. simpl.
    rewrite filter_none; [done|]. apply Forall_fmap, Forall_true. done.
  - unfold count. simpl. rewrite List.filter_app. simpl. rewrite app_nil_r.
    rewrite filter_interleave_r
      by (apply all_tee_thread; [done | intros s; reflexivity]).
    rewrite tee_thread_until_eof. simpl. rewrite List.filter_app. simpl.
    rewrite filter_none; [done|]. apply Forall_fmap, Forall_true. done.
  - rewrite app_comm_cons. apply last_snoc.
  - simpl. rewrite length_app, interleave_length, !tee_thread_until_eof. simpl.
    rewrite !length_app, !length_fmap. simpl. lia.
Qed.

(** ** The order of the commands *)

(** The commands of [m] are taken from [l], in the order of [l], each at
    most once. *)
Definition within (l : list string) {A} (m : M A) : Prop :=
  commands (trace m) `sublist_of` l.

Lemma commands_none (t : list event) :
  Forall (fun e => command_of e = None) t -> commands t = [].
Proof.
  unfold commands. induction 1 as [|e t He _ IH]; [done|].
  simpl. by rewrite He.
Qed.

Lemma within_silent l {A} (m : M A) :
  all (fun e => command_of e = None) m -> within l m.
Proof.
  intros H. unfold within. rewrite (commands_none _ H). apply sublist_nil_l.
Qed.

Lemma within_bind l1 l2 {A B} (m : M A) (k : A -> M B) :
  within l1 m -> (forall a, result m = inr a -> within l2 (k a)) ->
  within (l1 ++ l2) (bind m k).
Proof.
  unfold within. intros Hm Hk. rewrite trace_bind, commands_app.
  apply sublist_app; [done|].
  destruct (result m) as [r|a]; [apply sublist_nil_l | by apply Hk].
Qed.

Lemma within_try l1 l2 {A} c (body : M A) h :
  within l1 body -> (forall e, within l2 (h e)) ->
  within (l1 ++ l2) (try_except c body h).
Proof.
  unfold within. intros Hb Hh. rewrite trace_try, commands_app.
  apply sublist_app; [done|].
  destruct (result body) as [[code|e]|a]; try apply sublist_nil_l.
  destruct (c e); [apply Hh | apply sublist_nil_l].
Qed.

Lemma commands_snapraid_command env cfg command args allow :
  commands (trace (snapraid_command env cfg command args allow)) = [command].
Proof.
  unfold snapraid_command. rewrite trace_bind, commands_app.
  change (commands (trace (emit (Popen (snapraid_argv cfg command args)))))
    with [command].
  cbn [result emit]. rewrite commands_none; [done|].
  match goal with |- Forall ?P (trace ?m) => change (all P m) end.
  all_walk atom_eval.
  apply all_interleave; apply all_tee_thread; atom_eval.
Qed.

Lemma within_snapraid_command env cfg command args allow :
  within [command] (snapraid_command env cfg command args allow).
Proof. unfold within. by rewrite commands_snapraid_command. Qed.

Lemma finish_silent_commands env cfg b :
  all (fun e => command_of e = None) (finish env cfg b).
Proof. all_walk atom_eval. Qed.

Lemma check_preconditions_silent env cfg :
  all (fun e => command_of e = None) (check_preconditions env cfg).
Proof. all_walk atom_eval. Qed.

Lemma touch_stage_within env cfg : within ["touch"] (touch_stage env cfg).
Proof.
  unfold touch_stage. destruct (truthy _); [|by apply within_silent, all_ret].
  apply (within_bind [] ["touch"]); [apply within_silent; all_walk atom_eval|].
  intros ? _. apply (within_bind ["touch"] []);
    [apply within_snapraid_command|].
  intros ? _. apply within_silent. all_walk atom_eval.
Qed.

Lemma diff_stage_within env cfg : within ["diff"] (diff_stage env cfg).
Proof.
  unfold diff_stage.
  apply (within_bind [] ["diff"]); [apply within_silent; all_walk atom_eval|].
  intros ? _. apply (within_bind ["diff"] []);
    [apply within_snapraid_command|].
  intros ? _. apply within_silent. all_walk atom_eval.
Qed.

Lemma guarded_command_within env cfg command args :
  within [command]
    (try_except is_CalledProcessError
       (snapraid_command env cfg command args [] >> ret tt)
       (fun e => emit (LogError e) >> finish env cfg false)).
Proof.
  apply (within_try [command] []).
  - apply (within_bind [command] []); [apply within_snapraid_command|].
    intros ? _. by apply within_silent, all_ret.
  - intros e. apply within_silent. all_walk atom_eval.
Qed.

Lemma sync_stage_within env cfg d : within ["sync"] (sync_stage env cfg d).
Proof.
  unfold sync_stage.
  apply (within_bind [] ["sync"]); [apply within_silent, all_dict_get|intros r _].
  apply (within_bind [] ["sync"]); [apply within_silent, all_dict_get|intros a _].
  apply (within_bind [] ["sync"]); [apply within_silent, all_dict_get|intros m _].
  apply (within_bind [] ["sync"]); [apply within_silent, all_dict_get|intros u _].
  destruct (_ =? _)%nat; [apply within_silent; all_walk atom_eval|].
  apply (within_bind [] ["sync"]); [apply within_silent; all_walk atom_eval|].
  intros ? _. apply (within_bind ["sync"] []); [apply guarded_command_within|].
  intros ? _. apply within_silent. all_walk atom_eval.
Qed.

Lemma scrub_stage_within env cfg : within ["scrub"] (scrub_stage env cfg).
Proof.
  unfold scrub_stage. destruct (truthy _); [|by apply within_silent, all_ret].
  apply (within_bind [] ["scrub"]); [apply within_silent; all_walk atom_eval|].
  intros ? _.
  apply (within_bind [] ["scrub"]); [apply within_silent; all_walk atom_eval|].
  intros sargs _.
  apply (within_bind ["scrub"] []); [apply guarded_command_within|].
  intros ? _. apply within_silent. all_walk atom_eval.
Qed.

Lemma run_within env cfg :
  within ["touch"; "diff"; "sync"; "scrub"] (run env cfg).
Proof.
  unfold run, run_until_diff, run_after_diff.
  apply (within_bind ["touch"; "diff"] ["sync"; "scrub"]).
  - apply (within_bind [] ["touch"; "diff"]);
      [apply within_silent, check_preconditions_silent|intros ? _].
    apply (within_bind ["touch"] ["diff"]);
      [apply touch_stage_within | intros ? _; apply diff_stage_within].
  - intros d _.
    apply (within_bind [] ["sync"; "scrub"]);
      [apply within_silent; all_walk atom_eval|intros ? _].
    apply (within_bind [] ["sync"; "scrub"]);
      [apply within_silent; all_walk atom_eval|intros ? _].
    apply (within_bind ["sync"] ["scrub"]); [apply sync_stage_within|intros ? _].
    apply (within_bind ["scrub"] []); [apply scrub_stage_within|intros ? _].
    apply within_silent. all_walk atom_eval.
Qed.

Lemma setup_silent env a : all (fun e => command_of e = None) (setup env a).
Proof. unfold setup, load_config, setup_logger. all_walk atom_eval. Qed.

(** Whatever the configuration and the environment, the commands one
    execution invokes are touch, diff, sync and scrub in this order, each at
    most once: no command is repeated and none runs out of turn. *)
Theorem commands_in_order env a :
  commands (trace (main env a)) `sublist_of` ["touch"; "diff"; "sync"; "scrub"].
Proof.
  change (within ["touch"; "diff"; "sync"; "scrub"] (main env a)).
  unfold main.
  apply (within_bind [] ["touch"; "diff"; "sync"; "scrub"]);
    [apply within_silent, setup_silent|intros cfg _].
  unfold guarded_run.
  apply (within_try ["touch"; "diff"; "sync"; "scrub"] []);
    [apply run_within|].
  intros e. apply within_silent. all_walk atom_eval.
Qed.

(** ** Failures on the way *)

Lemma guarded_run_commands env cfg :
  commands (trace (guarded_run env cfg)) = commands (trace (run env cfg)).
Proof.
  unfold guarded_run. rewrite trace_try, commands_app.
  destruct (result (run env cfg)) as [[code|e]|a];
    cbv beta iota delta [Exception]; try by rewrite app_nil_r.
  rewrite (commands_none (trace (emit _ >> finish env cfg false)));
    [by rewrite app_nil_r|].
  match goal with |- Forall ?P (trace ?m) => change (all P m) end.
  all_walk atom_eval.
Qed.

Lemma in_guarded_run env cfg e :
  e ∈ trace (run env cfg) -> e ∈ trace (guarded_run env cfg).
Proof. apply in_try_l. Qed.

(** The handler of [main] after an exception out of [run]. *)
Lemma guarded_run_handles env cfg e :
  result (run env cfg) = inl (Exc e) ->
  LogException "Run failed due to unexpected exception:" e
    ∈ trace (guarded_run env cfg)
  /\ Call_finish false ∈ trace (guarded_run env cfg).
Proof.
  intros He. unfold guarded_run. rewrite trace_try, He. unfold Exception.
  rewrite !elem_of_app. split; right.
  - apply in_bind_l. by left.
  - eapply in_bind_r; [reflexivity|].
    destruct (finish_entered env cfg false) as [rest ->]. by left.
Qed.

Lemma run_stops_early env cfg r :
  result (run_until_diff env cfg) = inl r ->
  trace (run env cfg) = trace (run_until_diff env cfg)
  /\ result (run env cfg) = inl r.
Proof.
  intros H. unfold run. rewrite trace_bind, result_bind, H.
  by rewrite app_nil_r.
Qed.

Lemma run_until_diff_no_scrub env cfg :
  all (fun e => command_of e <> Some "scrub") (run_until_diff env cfg).
Proof. all_walk atom_eval. Qed.

Lemma steps_stops_early env cfg r :
  result (run_until_diff env cfg) = inl r -> result (steps env cfg) = inl r.
Proof. intros H. unfold steps. by rewrite result_bind, H. Qed.

(** An environment like [env_with_diff] in which the command [failing]
    exits with status 1. *)
Definition env_failing (d : yaml_doc) (diff_lines : list string)
    (failing : string) : environment :=
  {| env_exists := fun _ => true;
     env_yaml_load := fun _ => inr d;
     env_file_handler := fun _ _ => None;
     env_attach_handler := fun _ => None;
     env_isfile := fun _ => inr true;
     env_popen := fun argv =>
       match argv with
       | _ :: PyStr c :: _ =>
           if String.eqb c failing then inr (prints [] 1)
           else if String.eqb c "diff" then inr (prints diff_lines 2)
           else inr (prints [] 0)
       | _ => inl OSError
       end;
     env_apprise := apprise_ok |}.

(** An exception before the diff output is in hand (a failing touch or
    diff, a child process that cannot be started) is not handled by [run]:
    the handler of [main] logs it as unexpected and calls [finish(False)];
    neither sync nor scrub is invoked and the exit status is 1. *)
Theorem early_failure_is_unexpected env cfg e :
  result (run_until_diff env cfg) = inl (Exc e) ->
  LogException "Run failed due to unexpected exception:" e
    ∈ trace (guarded_run env cfg)
  /\ Call_finish false ∈ trace (guarded_run env cfg)
  /\ ("sync" ∉ commands (trace (guarded_run env cfg)))
  /\ ("scrub" ∉ commands (trace (guarded_run env cfg)))
  /\ exit_status (guarded_run env cfg) = 1.
Proof.
  intros He. destruct (run_stops_early env cfg _ He) as [Et Er].
  destruct (guarded_run_handles env cfg e Er) as [H1 H2].
  split; [done|]. split; [done|]. rewrite guarded_run_commands, Et.
  split; [apply not_in_commands, run_until_diff_no_sync|].
  split; [apply not_in_commands, run_until_diff_no_scrub|].
  apply failed_steps_status. by rewrite (steps_stops_early env cfg _ He).
Qed.

(** The sample run with a diff that exits with status 1. *)
Lemma early_failure_is_unexpected_witness :
  LogException "Run failed due to unexpected exception:"
    (CalledProcessError 1 "snapraid diff")
    ∈ trace (guarded_run (env_failing demo_doc [] "diff") demo_config).
Proof.
  apply (early_failure_is_unexpected (env_failing demo_doc [] "diff") demo_config).
  vm_compute. reflexivity.
Defined.

(** What the sync decision does when there are changes. *)
Definition do_sync env cfg : M unit :=
  log INFO "Running sync..." >>
  try_except is_CalledProcessError
    (snapraid_command env cfg "sync" [] [] >> ret tt)
    (fun e => emit (LogError e) >> finish env cfg false) >>
  log INFO stars.

Lemma snapraid_command_failed env cfg command args p :
  env_popen env (snapraid_argv cfg command args) = inr p -> p_ret p <> 0 ->
  result (snapraid_command env cfg command args [])
  = inl (Exc (CalledProcessError (p_ret p) ("snapraid " +:+ command))).
Proof.
  intros Ep Hne. rewrite (snapraid_command_ran env cfg command args [] p Ep).
  rewrite bool_decide_eq_false_2; [done|].
  intros [H|H]; [done | by apply elem_of_nil in H].
Qed.

Lemma do_sync_failed env cfg p :
  env_popen env (snapraid_argv cfg "sync" []) = inr p -> p_ret p <> 0 ->
  result (do_sync env cfg) = result (finish env cfg false)
  /\ LogError (CalledProcessError (p_ret p) "snapraid sync")
       ∈ trace (do_sync env cfg).
Proof.
  intros Ep Hne.
  pose proof (snapraid_command_failed env cfg "sync" [] p Ep Hne) as Hc.
  assert (result (snapraid_command env cfg "sync" [] [] >> ret tt)
          = inl (Exc (CalledProcessError (p_ret p) "snapraid sync"))) as Hb
    by (by rewrite result_bind, Hc).
  unfold do_sync. split.
  - rewrite result_bind. cbn [result log emit]. rewrite result_bind, result_try, Hb.
    cbn [is_CalledProcessError]. rewrite result_bind. cbn [result emit].
    pose proof (finish_never_returns env cfg false) as Hn.
    destruct (result (finish env cfg false)) as [r|[]]; [done | by destruct (Hn tt)].
  - eapply in_bind_r; [reflexivity|]. apply in_bind_l.
    rewrite trace_try, Hb, elem_of_app. right. cbn [is_CalledProcessError].
    apply in_bind_l. by left.
Qed.

Lemma do_sync_no_scrub env cfg :
  all (fun e => command_of e <> Some "scrub") (do_sync env cfg).
Proof. unfold do_sync. all_walk atom_eval. Qed.

Lemma all_done_not_in (t : list event) :
  Forall (fun e => e <> Log INFO "All done") t -> Log INFO "All done" ∉ t.
Proof. intros H Hin. by apply (proj1 (Forall_forall _ _) H _ Hin). Qed.

(** A failing sync is handled inside [run]: the error is logged,
    [finish(False)] is called at once, scrub is never invoked, "All done" is
    never logged and the exit status is 1. *)
Theorem sync_failure_skips_scrub env cfg (diff_out : list string) thr p :
  result (run_until_diff env cfg) = inr diff_out ->
  int_value (cfg_get cfg "snapraid" "deletethreshold") = Some thr ->
  ~ exceeds thr diff_out ->
  changes diff_out <> 0%nat ->
  env_popen env (snapraid_argv cfg "sync" []) = inr p ->
  p_ret p <> 0 ->
  LogError (CalledProcessError (p_ret p) "snapraid sync") ∈ trace (run env cfg)
  /\ result (run env cfg) = result (finish env cfg false)
  /\ ("scrub" ∉ commands (trace (guarded_run env cfg)))
  /\ exit_status (guarded_run env cfg) = 1.
Proof.
  intros Hres Hthr Hn Hch Ep Hne.
  destruct (do_sync_failed env cfg p Ep Hne) as [Hr Hin].
  assert (forall a, result (do_sync env cfg) <> inr a) as Hstop
    by (intros a; rewrite Hr; apply finish_never_returns).
  destruct (run_after_prefix env cfg diff_out Hres) as [Et Er].
  rewrite (run_after_diff_passed env cfg diff_out thr Hthr Hn) in Et, Er.
  rewrite sync_stage_analyze in Et, Er.
  apply Nat.eqb_neq in Hch. rewrite Hch in Et, Er.
  fold (do_sync env cfg) in Et, Er.
  rewrite report_diff_analyze in Et, Er.
  rewrite trace_bind in Et. rewrite result_bind in Er.
  cbn [result log emit] in Et, Er.
  rewrite (trace_bind_stops _ _ Hstop) in Et.
  destruct (result_bind_stops (do_sync env cfg)
              (fun _ => scrub_stage env cfg >> log INFO "All done" >>
                        finish env cfg true) Hstop) as (r & Hr1 & Hr2).
  rewrite Hr2 in Er. rewrite <- Hr1, Hr in Er.
  split; [|split; [done|split]].
  - rewrite Et, !elem_of_app. by right; right.
  - rewrite guarded_run_commands, Et. apply not_in_commands.
    rewrite !Forall_app. split; [apply run_until_diff_no_scrub|].
    split; [repeat constructor; discriminate | apply do_sync_no_scrub].
  - by apply guarded_run_failed.
Qed.

(** The sample run with a sync that exits with status 1. *)
Lemma sync_failure_skips_scrub_witness :
  "scrub" ∉ commands
    (trace (guarded_run (env_failing demo_doc five_removals "sync") demo_config)).
Proof.
  apply (sync_failure_skips_scrub (env_failing demo_doc five_removals "sync")
           demo_config five_removals 5 (prints [] 1)).
  - vm_compute. reflexivity.
  - vm_compute. reflexivity.
  - intros [_ H]. vm_compute in H. discriminate H.
  - discriminate.
  - vm_compute. reflexivity.
  - discriminate.
Defined.

(** ** Preconditions *)

(** One of the two files of the snapraid section is not a regular file. *)
Definition precondition_fails (env : environment) (cfg : config) : Prop :=
  env_isfile env (cfg_get cfg "snapraid" "executable") = inr false
  \/ (env_isfile env (cfg_get cfg "snapraid" "executable") = inr true
      /\ env_isfile env (cfg_get cfg "snapraid" "config") = inr false).

Lemma check_preconditions_fails env cfg :
  precondition_fails env cfg ->
  (forall a, result (check_preconditions env cfg) <> inr a)
  /\ (Call_finish false ∈ trace (check_preconditions env cfg)
      \/ exists e, result (check_preconditions env cfg) = inl (Exc e)).
Proof.
  pose proof (finish_never_returns env cfg false) as Hn.
  destruct (finish_entered env cfg false) as [rest Hrest].
  unfold check_preconditions.
  intros [He|[He Hc]]; rewrite He; cbn [lift]; rewrite !bind_ret_l.
  - split.
    + intros a (? & _ & H)%result_bind_inr.
      apply result_bind_inr in H as (? & _ & H).
      apply result_bind_inr in H as (? & _ & H).
      apply result_bind_inr in H as (? & H & _).
      apply result_bind_inr in H as (? & _ & H). by apply Hn in H.
    + left. eapply in_bind_r; [reflexivity|]. eapply in_bind_r; [reflexivity|].
      eapply in_bind_r; [reflexivity|]. apply in_bind_l.
      eapply in_bind_r; [reflexivity|]. rewrite Hrest. by left.
  - rewrite Hc. cbn [lift negb]. rewrite !bind_ret_l.
    destruct (cfg_get cfg "snapraid" "config") as [| | |path] eqn:Ec;
      cbn [concat].
    4: { rewrite bind_ret_l. split.
         - intros a (? & _ & H)%result_bind_inr.
           apply result_bind_inr in H as (? & _ & H).
           apply result_bind_inr in H as (? & _ & H).
           apply result_bind_inr in H as (? & _ & H). by apply Hn in H.
         - left. eapply in_bind_r; [reflexivity|].
           eapply in_bind_r; [reflexivity|]. eapply in_bind_r; [reflexivity|].
           eapply in_bind_r; [reflexivity|]. rewrite Hrest. by left. }
    all: split; [|right; by exists TypeError].
    all: intros a (? & _ & H)%result_bind_inr.
    all: apply result_bind_inr in H as (? & _ & H).
    all: by apply result_bind_inr in H as (? & _ & H).
Qed.

Lemma run_until_diff_stops env cfg :
  (forall a, result (check_preconditions env cfg) <> inr a) ->
  trace (run_until_diff env cfg) = trace (check_preconditions env cfg)
  /\ exists r, result (check_preconditions env cfg) = inl r
               /\ result (run_until_diff env cfg) = inl r.
Proof.
  intros Hstop. unfold run_until_diff.
  split; [by apply trace_bind_stops | by apply result_bind_stops].
Qed.

(** When the configured executable, or else the snapraid configuration, is
    not a regular file, no command is ever invoked, [finish(False)] is
    called and the exit status is 1. *)
Theorem precondition_failure_runs_nothing env cfg :
  precondition_fails env cfg ->
  commands (trace (guarded_run env cfg)) = []
  /\ Call_finish false ∈ trace (guarded_run env cfg)
  /\ exit_status (guarded_run env cfg) = 1.
Proof.
  intros Hf. destruct (check_preconditions_fails env cfg Hf) as [Hstop Hfin].
  destruct (run_until_diff_stops env cfg Hstop) as [Et (r & Hr & Hr')].
  destruct (run_stops_early env cfg r Hr') as [Et' Er].
  split; [|split].
  - rewrite guarded_run_commands, Et', Et.
    apply commands_none, check_preconditions_silent.
  - destruct Hfin as [Hin|[e He]].
    + apply in_guarded_run. by rewrite Et', Et.
    + rewrite He in Hr. injection Hr as <-.
      by apply (guarded_run_handles env cfg e).
  - apply failed_steps_status. by rewrite (steps_stops_early env cfg r Hr').
Qed.

(** The sample configuration where no file exists. *)
Lemma precondition_failure_runs_nothing_witness :
  commands (trace (guarded_run (env_without_snapraid demo_doc) demo_config)) = [].
Proof.
  apply (precondition_failure_runs_nothing (env_without_snapraid demo_doc)
           demo_config).
  left. reflexivity.
Defined.

(** ** The command-line overrides, end to end *)

Lemma normalize_no_scrub a (c : config) :
  no_scrub a = true ->
  cfg_get (normalize a c) "scrub" "enabled" = PyBool false.
Proof.
  intros H.
  assert (("scrub", "enabled") ∈ bool_options) as Hin
    by (unfold bool_options; rewrite !elem_of_cons; tauto).
  pose proof (normalize_bool_option a c ("scrub", "enabled") Hin) as E.
  cbn [fst snd] in E. rewrite E, H. reflexivity.
Qed.

Lemma normalize_ignore a (c : config) :
  ignore_deletethreshold a = true ->
  cfg_get (normalize a c) "snapraid" "deletethreshold" = PyInt (-1).
Proof.
  intros H.
  assert (("snapraid", "deletethreshold") ∈ int_options) as Hin
    by (unfold int_options; rewrite !elem_of_cons; tauto).
  pose proof (normalize_int_option a c ("snapraid", "deletethreshold") Hin) as E.
  cbn [fst snd] in E. rewrite E, H. reflexivity.
Qed.

Lemma main_trace_cases env a :
  trace (main env a) = trace (setup env a)
  \/ exists c, result (setup env a) = inr (normalize a c)
               /\ trace (main env a)
                  = (trace (setup env a) ++ trace (guarded_run env (normalize a c)))%list.
Proof.
  unfold main. rewrite trace_bind.
  destruct (result (setup env a)) as [r|cfg] eqn:E; [left; by rewrite app_nil_r|].
  right. destruct (setup_normalized env a cfg E) as [c ->]. by exists c.
Qed.

Lemma setup_never (P : event -> Prop) env a :
  (forall e, is_print e = true -> P e) -> Forall P (trace (setup env a)).
Proof. intros H. eapply Forall_impl; [apply setup_prints|]. exact H. Qed.

(** Settles that an event differs from a log record of a fixed text, also
    when its own text is a concatenation that starts differently. *)
Ltac atom_text :=
  intros;
  let H := fresh in
  intro H;
  first
    [ discriminate H
    | injection H as H; try discriminate;
      cbv beta iota delta [String.append] in H;
      repeat match goal with
             | H' : _ = _ |- _ => cbv beta iota delta [String.append] in H'
             end;
      discriminate ].

(** Walks a goal [all P (guarded_run env cfg)] with the scrub stage and the
    threshold gate handled by [scrub] and [gate]; the text built by
    [concat] is kept. *)
Ltac all_walk_with scrub gate atom :=
  repeat
    lazymatch goal with
    | |- all _ (scrub_stage _ _) => scrub
    | |- all _ (threshold_gate _ _ _) => gate
    | |- all _ (bind (concat _ ?v) _) =>
        destruct v; cbn [concat];
        first [ rewrite bind_ret_l
              | apply all_bind;
                [apply all_raise | let Hr := fresh in intros ? Hr; discriminate Hr] ]
    | |- all _ (bind _ _) => apply all_bind; [| intros ? _]
    | |- all _ (try_except _ _ _) => apply all_try; [| intros ? _]
    | |- all _ (if _ then _ else _) => split_branch
    | |- all _ (match _ with _ => _ end) => split_branch
    | |- all _ (emit _) => apply all_emit; atom
    | |- all _ (run _ _) => unfold run
    | |- all _ (run_until_diff _ _) => unfold run_until_diff
    | |- all _ (check_preconditions _ _) => unfold check_preconditions
    | |- all _ (run_after_diff _ _ _) => unfold run_after_diff
    | |- all _ (guarded_run _ _) => unfold guarded_run
    | |- all _ _ => solve [all_walk atom]
    end.

(** With --no-scrub, scrub is never invoked, whatever the file says. *)
Theorem no_scrub_flag_skips_scrub env a :
  no_scrub a = true -> "scrub" ∉ commands (trace (main env a)).
Proof.
  intros H. apply not_in_commands.
  destruct (main_trace_cases env a) as [->|(c & _ & ->)].
  - apply setup_never. by intros [].
  - apply Forall_app. split; [apply setup_never; by intros []|].
    assert (scrub_stage env (normalize a c) = ret tt) as Hs
      by (unfold scrub_stage; by rewrite (normalize_no_scrub a c H)).
    match goal with |- Forall ?P (trace ?m) => change (all P m) end.
    all_walk_with ltac:(rewrite Hs; apply all_ret)
                  ltac:(solve [all_walk atom_eval]) atom_eval.
Qed.

Definition no_scrub_args : args :=
  {| conf := "snapraid-runner.yml"; no_scrub := true;
     ignore_deletethreshold := false |}.

(** The sample file enables scrub; --no-scrub wins. *)
Lemma no_scrub_flag_skips_scrub_witness :
  "scrub" ∉ commands (trace (main busy_env no_scrub_args)).
Proof. apply (no_scrub_flag_skips_scrub busy_env no_scrub_args). reflexivity. Defined.

(** The hint that ends the threshold abort. *)
Definition override_hint : event :=
  Log ERROR "Run again with --ignore-deletethreshold to sync anyways".

Lemma threshold_gate_disabled env cfg (d : gmap string nat) thr :
  int_value (cfg_get cfg "snapraid" "deletethreshold") = Some thr -> thr < 0 ->
  threshold_gate env cfg d = ret tt.
Proof.
  intros Hthr Hneg. unfold threshold_gate, as_int. rewrite Hthr, bind_ret_l.
  apply Z.leb_gt in Hneg as ->. by rewrite bind_ret_l.
Qed.

(** With --ignore-deletethreshold the threshold gate never aborts: the
    abort hint is never logged, whatever the file and the diff say. *)
Theorem ignore_flag_disables_gate env a :
  ignore_deletethreshold a = true -> override_hint ∉ trace (main env a).
Proof.
  intros H.
  assert (forall t, Forall (fun e => e <> override_hint) t -> override_hint ∉ t)
    as Hnot by (intros t Ht Hin; by apply (proj1 (Forall_forall _ _) Ht _ Hin)).
  apply Hnot.
  destruct (main_trace_cases env a) as [->|(c & _ & ->)].
  - apply setup_never. by intros [].
  - apply Forall_app. split; [apply setup_never; by intros []|].
    assert (forall d, threshold_gate env (normalize a c) d = ret tt) as Hg.
    { intros d. apply (threshold_gate_disabled _ _ _ (-1)); [|done].
      by rewrite (normalize_ignore a c H). }
    match goal with |- Forall ?P (trace ?m) => change (all P m) end.
    unfold override_hint, ERROR, INFO, OUTPUT, OUTERR.
    all_walk_with ltac:(solve [all_walk atom_text])
                  ltac:(rewrite Hg; apply all_ret) atom_text.
Qed.

(** Six removals against the sample threshold of five, overridden. *)
Lemma ignore_flag_disables_gate_witness :
  override_hint
    ∉ trace (main (env_with_diff demo_doc ("remove g" :: five_removals)) ignore_args).
Proof.
  apply (ignore_flag_disables_gate
           (env_with_diff demo_doc ("remove g" :: five_removals)) ignore_args).
  reflexivity.
Defined.

(** ** Loading the file *)

(** The options [normalize] may write to. *)
Definition normalized_options : list (string * string) :=
  (int_options ++ bool_options ++ [("scrub", "plan")])%list.

Lemma normalize_other a (c : config) s o :
  (s, o) ∉ normalized_options ->
  cfg_get (normalize a c) s o = cfg_get c s o.
Proof.
  unfold normalized_options, int_options, bool_options. simpl app.
  rewrite !not_elem_of_cons. intros (H1 & H2 & H3 & H4 & H5 & H6 & H7 & _).
  unfold normalize, int_options, bool_options, scrub; cbn [foldl].
  destruct (ignore_deletethreshold _), (no_scrub _);
    match goal with |- context [truthy ?v] => destruct (truthy v) end;
    cbn [andb fst snd];
    repeat first
      [ rewrite cfg_get_set_ne by congruence
      | rewrite cfg_get_coerce_int_ne by congruence
      | rewrite cfg_get_coerce_bool_ne by congruence ];
    reflexivity.
Qed.

Lemma normalize_percentage_read (c : config) :
  cfg_get
    (foldl coerce_bool (foldl coerce_int c int_options) bool_options)
    "scrub" "percentage"
  = cfg_get c "scrub" "percentage".
Proof.
  unfold int_options, bool_options. cbn [foldl].
  repeat first
    [ rewrite cfg_get_coerce_int_ne by discriminate
    | rewrite cfg_get_coerce_bool_ne by discriminate ].
  reflexivity.
Qed.

(** The migration of the old [percentage] option: a non-empty, non-zero
    percentage replaces the plan, otherwise the plan of the file stays; the
    command-line flags do not touch it. An integer percentage therefore
    scrubs with plan and older-than. *)
Theorem percentage_becomes_plan a (c : config) :
  cfg_get (normalize a c) "scrub" "plan"
  = (if truthy (cfg_get c "scrub" "percentage")
     then cfg_get c "scrub" "percentage"
     else cfg_get c "scrub" "plan")
  /\ (forall n, cfg_get c "scrub" "percentage" = PyInt n -> n <> 0 ->
        scrub_args (normalize a c)
        = ret [("plan", PyInt n);
               ("older-than", cfg_get (normalize a c) "scrub" "older-than")]).
Proof.
  assert (cfg_get (normalize a c) "scrub" "plan"
          = (if truthy (cfg_get c "scrub" "percentage")
             then cfg_get c "scrub" "percentage"
             else cfg_get c "scrub" "plan")) as E.
  { unfold normalize. rewrite normalize_percentage_read.
    unfold scrub, int_options, bool_options. cbn [foldl].
    destruct (ignore_deletethreshold _), (no_scrub _),
      (truthy (cfg_get c "scrub" "percentage"));
      repeat first
        [ rewrite cfg_get_set_eq
        | rewrite cfg_get_set_ne by discriminate
        | rewrite cfg_get_coerce_int_ne by discriminate
        | rewrite cfg_get_coerce_bool_ne by discriminate ];
      reflexivity. }
  split; [exact E|]. intros n Hn Hnz. unfold scrub_args. rewrite E, Hn.
  cbn [truthy]. apply Z.eqb_neq in Hnz as ->. reflexivity.
Qed.

(** All sections of the document are mappings. *)
Definition all_mappings (secs : list (string * yaml_section)) : Prop :=
  Forall (fun nb => nb.2 <> SecOther) secs.

Lemma load_sections_dom secs (c0 c : config) :
  load_sections c0 secs = inr c -> dom c = dom c0.
Proof.
  revert c0. induction secs as [|[name body] secs IH]; intros c0 H.
  - by injection H as <-.
  - simpl in H. destruct body as [[|it items]|]; [by apply IH| |done].
    destruct (c0 !! name) as [sec|] eqn:Ec; [|done].
    rewrite (IH _ H). apply dom_insert_lookup_L. by eexists.
Qed.

Lemma empty_config_lookup (name : string) :
  empty_config !! name = if bool_decide (name ∈ sections) then Some ∅ else None.
Proof.
  unfold empty_config, sections. simpl.
  rewrite !lookup_insert, lookup_empty.
  repeat case_decide; subst; try reflexivity.
  all: exfalso; rewrite ?elem_of_cons, ?elem_of_nil in *; intuition congruence.
Qed.

Lemma load_sections_unknown secs (c0 : config) name items :
  all_mappings secs ->
  (name, SecMapping items) ∈ secs -> items <> [] -> c0 !! name = None ->
  load_sections c0 secs = inl KeyError.
Proof.
  intros Hall Hin Hne. revert c0.
  induction secs as [|[name' body] secs IH]; intros c0 Hc0;
    [by apply elem_of_nil in Hin|].
  apply Forall_cons in Hall as [Hb Hall].
  apply elem_of_cons in Hin as [[= <- <-]|Hin].
  - simpl. destruct items; [done|]. by rewrite Hc0.
  - simpl. destruct body as [[|it its]|]; [by apply IH| |done].
    destruct (c0 !! name') as [sec|] eqn:Ec; [|done].
    apply IH; [done..|]. rewrite lookup_insert_ne; [done|]. congruence.
Qed.

(** A section that is not one of snapraid, logging, apprise and scrub and
    holds at least one option makes loading fail with [KeyError] (when every
    section is a mapping), and [main] then exits with status 2 having run
    nothing; an unknown section without options is ignored. *)
Theorem unknown_section_is_rejected env a secs name items :
  all_mappings secs ->
  (name, SecMapping items) ∈ secs -> items <> [] -> name ∉ sections ->
  load_document a (DocMapping secs) = inl KeyError
  /\ (env_exists env (conf a) = true ->
      env_yaml_load env (conf a) = inr (DocMapping secs) ->
      exit_status (main env a) = 2 /\ commands (trace (main env a)) = [])
  /\ load_document a (DocMapping ((name, SecMapping []) :: []))
     = inr (normalize a empty_config).
Proof.
  intros Hall Hin Hne Hname.
  assert (load_document a (DocMapping secs) = inl KeyError) as E.
  { simpl. rewrite (load_sections_unknown secs empty_config name items); try done.
    rewrite empty_config_lookup. by rewrite bool_decide_eq_false_2. }
  split; [exact E|]. split; [|reflexivity].
  intros Hex Hy.
  assert (result (load_config env a) = inl (Exc KeyError)) as Hl.
  { unfold load_config. rewrite Hy. cbn [lift]. rewrite bind_ret_l, E. reflexivity. }
  assert (result (setup env a) = inl (SystemExit 2)) as Hs.
  { destruct (setup_result env a) as [[_ H]|[Hn _]]; [done|].
    destruct Hn. right. left. by exists KeyError. }
  split.
  - unfold exit_status. by rewrite main_result, Hs.
  - unfold main. rewrite trace_bind, Hs, app_nil_r.
    apply commands_none, setup_silent.
Qed.

Definition extra_section_doc : yaml_doc :=
  DocMapping [("snapraid", SecMapping [("touch", PyBool true)]);
              ("email", SecMapping [("to", PyStr "root")])].

(** A file with a section named email. *)
Lemma unknown_section_is_rejected_witness :
  load_document demo_args extra_section_doc = inl KeyError.
Proof.
  apply (unknown_section_is_rejected quiet_env demo_args
           [("snapraid", SecMapping [("touch", PyBool true)]);
            ("email", SecMapping [("to", PyStr "root")])]
           "email" [("to", PyStr "root")]).
  - repeat constructor; discriminate.
  - right. left.
  - discriminate.
  - unfold sections. rewrite !not_elem_of_cons. repeat split; try discriminate.
    apply not_elem_of_nil.
Defined.

(** ** Options reach the core as the file has them *)

Lemma assign_items_lookup (sec : gmap string pyval) items (k : string) v :
  NoDup items.*1 -> (k, v) ∈ items -> assign_items sec items !! k = Some v.
Proof.
  unfold assign_items. revert sec.
  induction items as [|[k' v'] items IH]; intros sec Hnd Hin;
    [by apply elem_of_nil in Hin|].
  cbn [fmap list_fmap fst] in Hnd. apply NoDup_cons in Hnd as [Hk' Hnd].
  apply elem_of_cons in Hin as [[= <- <-]|Hin]; cbn [foldl fst snd].
  - change (assign_items (<[k:=v]> sec) items !! k = Some v).
    rewrite assign_items_other by done. apply lookup_insert_eq.
  - by apply IH.
Qed.

Lemma load_sections_untouched secs (c0 c : config) sec opt :
  load_sections c0 secs = inr c ->
  (forall items, (sec, SecMapping items) ∈ secs -> opt ∉ items.*1) ->
  cfg_get c sec opt = cfg_get c0 sec opt.
Proof.
  revert c0. induction secs as [|[name body] secs IH]; intros c0 Hl Hu.
  - by injection Hl as <-.
  - assert (forall items, (sec, SecMapping items) ∈ secs -> opt ∉ items.*1) as Hu'
      by (intros items Hi; apply Hu; by right).
    simpl in Hl. destruct body as [[|it items]|]; [by apply IH| |done].
    destruct (c0 !! name) as [s|] eqn:Ec; [|done].
    rewrite (IH _ Hl Hu'). unfold cfg_get.
    destruct (decide (name = sec)) as [->|Hne].
    + rewrite lookup_total_insert_eq, assign_items_other by (apply Hu; by left).
      by rewrite (lookup_total_correct _ _ _ Ec).
    + by rewrite lookup_total_insert_ne.
Qed.

Lemma load_sections_assigned secs (c0 c : config) sec items opt v :
  load_sections c0 secs = inr c ->
  NoDup secs.*1 -> (sec, SecMapping items) ∈ secs ->
  NoDup items.*1 -> (opt, v) ∈ items ->
  cfg_get c sec opt = v.
Proof.
  revert c0. induction secs as [|[name body] secs IH]; intros c0 Hl Hnd Hin Hndi Hv;
    [by apply elem_of_nil in Hin|].
  cbn [fmap list_fmap fst] in Hnd. apply NoDup_cons in Hnd as [Hname Hnd].
  apply elem_of_cons in Hin as [[= <- <-]|Hin].
  - simpl in Hl. destruct items as [|it items]; [by apply elem_of_nil in Hv|].
    destruct (c0 !! sec) as [s|] eqn:Ec; [|done].
    rewrite (load_sections_untouched _ _ _ sec opt Hl).
    + unfold cfg_get. rewrite lookup_total_insert_eq.
      by rewrite (assign_items_lookup s (it :: items) opt v).
    + intros items' Hi. destruct Hname.
      apply list_elem_of_fmap. by exists (sec, SecMapping items').
  - simpl in Hl. destruct body as [[|it its]|]; [by apply (IH c0)| |done].
    destruct (c0 !! name) as [s|] eqn:Ec; [|done]. by apply (IH _ Hl).
Qed.

Lemma cfg_get_empty_config sec opt : cfg_get empty_config sec opt = PyStr "".
Proof.
  unfold cfg_get. rewrite lookup_total_alt, empty_config_lookup.
  by destruct (bool_decide _).
Qed.

(** For an option that [load_config] neither coerces nor migrates
    (executable, config, sendon, urls, file, ...): after loading a file
    whose section names and option names are not repeated, the dictionary
    holds for it exactly the value the file gives, and the empty string
    when the file does not mention it. *)
Theorem untyped_options_load_verbatim a secs (cfg : config) sec opt :
  load_document a (DocMapping secs) = inr cfg ->
  (sec, opt) ∉ normalized_options ->
  (forall items v,
     NoDup secs.*1 -> (sec, SecMapping items) ∈ secs ->
     NoDup items.*1 -> (opt, v) ∈ items ->
     cfg_get cfg sec opt = v)
  /\ ((forall items, (sec, SecMapping items) ∈ secs -> opt ∉ items.*1) ->
      cfg_get cfg sec opt = PyStr "").
Proof.
  simpl. destruct (load_sections empty_config secs) as [e|raw] eqn:E; [done|].
  intros [= <-] Hopt. rewrite (normalize_other a raw sec opt Hopt). split.
  - intros items v Hnd Hin Hndi Hv.
    by apply (load_sections_assigned secs empty_config raw sec items opt v).
  - intros Hu. rewrite (load_sections_untouched _ _ _ sec opt E Hu).
    apply cfg_get_empty_config.
Qed.

(** The executable of the sample file. *)
Lemma untyped_options_load_verbatim_witness :
  cfg_get demo_config "snapraid" "executable" = PyStr "/usr/bin/snapraid".
Proof.
  destruct (untyped_options_load_verbatim demo_args
              [("snapraid", SecMapping [("executable", PyStr "/usr/bin/snapraid");
                                        ("config", PyStr "/etc/snapraid.conf");
                                        ("deletethreshold", PyInt 5);
                                        ("touch", PyBool true)]);
               ("scrub", SecMapping [("enabled", PyBool true);
                                     ("plan", PyInt 12);
                                     ("older-than", PyInt 10)]);
               ("apprise", SecMapping [("sendon", PyStr "success,error")])]
              demo_config "snapraid" "executable") as [H _].
  - vm_compute. reflexivity.
  - unfold normalized_options, int_options, bool_options. simpl app.
    rewrite !not_elem_of_cons. repeat split; try discriminate.
    apply not_elem_of_nil.
  - apply (H [("executable", PyStr "/usr/bin/snapraid");
              ("config", PyStr "/etc/snapraid.conf");
              ("deletethreshold", PyInt 5);
              ("touch", PyBool true)]).
    + cbn [fmap list_fmap fst]. repeat (apply NoDup_cons; split);
        rewrite ?not_elem_of_cons; repeat split; try discriminate;
        try apply not_elem_of_nil. apply NoDup_nil_2.
    + by left.
    + cbn [fmap list_fmap fst]. repeat (apply NoDup_cons; split);
        rewrite ?not_elem_of_cons; repeat split; try discriminate;
        try apply not_elem_of_nil. apply NoDup_nil_2.
    + by left.
Defined.

(** ** The notification *)

(** [body] as [send_apprise_notification] chooses it. *)
Definition notification_body (success : bool) : string :=
  if success then "SnapRAID job completed successfully"
  else "Error during SnapRAID job".

Definition is_notify (e : event) : bool :=
  match e with Notify _ _ => true | _ => false end.

Definition raised_or_done (o : option exception) : raised + unit :=
  match o with Some e => inl (Exc e) | None => inr tt end.

(** [send_apprise_notification], case by case. *)
Lemma send_apprise_notification_normal env cfg (success : bool) :
  let lib := env_apprise env in
  let body := notification_body success in
  send_apprise_notification env cfg success
  = if installed lib
    then
      match add_urls lib with
      | Some e => MkM [Call_send_apprise_notification success] (inl (Exc e))
      | None =>
          if truthy (cfg_get cfg "apprise" "attach-log")
          then
            match notify lib body true with
            | Some e =>
                MkM [Call_send_apprise_notification success; Notify body true]
                  (inl (Exc e))
            | None =>
                MkM [Call_send_apprise_notification success; Notify body true;
                     RemoveAttachment]
                  (raised_or_done (remove_attachment lib))
            end
          else
            MkM [Call_send_apprise_notification success; Notify body false]
              (raised_or_done (notify lib body false))
      end
    else
      MkM [Call_send_apprise_notification success;
           Log ERROR "Failed to send notifications because Apprise library is not installed"]
        (inr tt).
Proof.
  cbv zeta. unfold send_apprise_notification, notification_body.
  destruct (installed (env_apprise env)); [|reflexivity]. cbn [negb].
  destruct (add_urls (env_apprise env)); [reflexivity|].
  destruct (truthy (cfg_get cfg "apprise" "attach-log")).
  - destruct success.
    + destruct (notify (env_apprise env) "SnapRAID job completed successfully" true)
        eqn:En; unfold bind; cbn; rewrite ?En; cbn; [reflexivity|].
      by destruct (remove_attachment (env_apprise env)).
    + destruct (notify (env_apprise env) "Error during SnapRAID job" true)
        eqn:En; unfold bind; cbn; rewrite ?En; cbn; [reflexivity|].
      by destruct (remove_attachment (env_apprise env)).
  - destruct success.
    + destruct (notify (env_apprise env) "SnapRAID job completed successfully" false)
        eqn:En; unfold bind; cbn; rewrite ?En; reflexivity.
    + destruct (notify (env_apprise env) "Error during SnapRAID job" false)
        eqn:En; unfold bind; cbn; rewrite ?En; reflexivity.
Qed.

Ltac in_explicit_list :=
  intros; cbn [trace] in *; rewrite ?elem_of_cons, ?elem_of_nil in *;
  intuition (try discriminate; try congruence).

(** [send_apprise_notification] in each of its cases. A missing apprise
    library is logged as an error and is not an exception; a failure to add
    the URLs prevents the notification; the message says success or error
    and carries the log exactly when attach-log is set; the attached log is
    removed after [notify] returned and is left in place when [notify]
    raised. *)
Theorem send_apprise_notification_cases env cfg (success : bool) :
  let lib := env_apprise env in
  let attach := truthy (cfg_get cfg "apprise" "attach-log") in
  let m := send_apprise_notification env cfg success in
  (installed lib = false ->
     result m = inr tt /\ List.filter is_notify (trace m) = []
     /\ Log ERROR "Failed to send notifications because Apprise library is not installed"
          ∈ trace m)
  /\ (forall e, installed lib = true -> add_urls lib = Some e ->
        result m = inl (Exc e) /\ List.filter is_notify (trace m) = [])
  /\ (installed lib = true -> add_urls lib = None ->
        List.filter is_notify (trace m)
        = [Notify (notification_body success) attach]
        /\ (RemoveAttachment ∈ trace m
            <-> attach = true
                /\ notify lib (notification_body success) true = None)
        /\ (forall e, notify lib (notification_body success) attach = Some e ->
              result m = inl (Exc e)))
  /\ (forall x, Notify x true ∈ trace m -> attach = true)
  /\ (forall x y, Notify x y ∈ trace m -> x = notification_body success).
Proof.
  cbv zeta. rewrite send_apprise_notification_normal. cbv zeta.
  split; [|split; [|split; [|split]]].
  - intros ->. split; [done|]. split; [done|]. right. by left.
  - intros e -> ->. done.
  - intros -> ->.
    destruct (truthy (cfg_get cfg "apprise" "attach-log")).
    + destruct (notify (env_apprise env) (notification_body success) true) eqn:En.
      * split; [done|]. split; [|by intros e0 [= <-]].
        split; [in_explicit_list | by intros [_ ?]].
      * split; [done|]. split; [|done]. split; [done|]. intros _. in_explicit_list.
    + split; [done|]. split; [split; [in_explicit_list | by intros [? _]]|].
      intros e0 ->. done.
  - intros x.
    destruct (installed (env_apprise env)); [|in_explicit_list].
    destruct (add_urls (env_apprise env)); [in_explicit_list|].
    destruct (truthy (cfg_get cfg "apprise" "attach-log")); [done|].
    in_explicit_list.
  - intros x y.
    destruct (installed (env_apprise env)); [|in_explicit_list].
    destruct (add_urls (env_apprise env)); [in_explicit_list|].
    destruct (truthy (cfg_get cfg "apprise" "attach-log")).
    + destruct (notify (env_apprise env) (notification_body success) true);
        cbn [trace]; in_explicit_list.
    + cbn [trace]. in_explicit_list.
Qed.

(** ** The analyzer does not depend on the order of the lines *)

Lemma tally_app (l1 l2 : list string) c :
  tally (l1 ++ l2) c = (tally l1 c + tally l2 c)%nat.
Proof. unfold tally. by rewrite fmap_app, count_occ_app. Qed.

Lemma tally_Permutation (l1 l2 : list string) c :
  l1 ≡ₚ l2 -> tally l1 c = tally l2 c.
Proof.
  intros H. unfold tally.
  apply (proj1 (Permutation_count_occ string_dec _ _)).
  by apply fmap_Permutation.
Qed.

(** Two outputs with the same lines in any order give the same counts, so
    the threshold gate and the sync decision cannot tell them apart; and the
    counts of a concatenated output are the sums of the counts of its
    parts. *)
Theorem analyze_order_independent env cfg (l1 l2 : list string) :
  l1 ≡ₚ l2 ->
  analyze l1 = analyze l2
  /\ threshold_gate env cfg (analyze l1) = threshold_gate env cfg (analyze l2)
  /\ sync_stage env cfg (analyze l1) = sync_stage env cfg (analyze l2)
  /\ (forall l l' c, tally (l ++ l') c = (tally l c + tally l' c)%nat).
Proof.
  intros H.
  assert (analyze l1 = analyze l2) as E.
  { apply map_eq. intros k. rewrite !analyze_lookup.
    destruct (bool_decide _); [|done]. f_equal. by apply tally_Permutation. }
  rewrite E. repeat split; try done. apply tally_app.
Qed.

(** Two lines swapped. *)
Lemma analyze_order_independent_witness :
  analyze ["add a"; "remove b"] = analyze ["remove b"; "add a"].
Proof.
  apply (analyze_order_independent quiet_env demo_config
           ["add a"; "remove b"] ["remove b"; "add a"]).
  apply perm_swap.
Defined.

(** ** Logging setup *)

(** An environment whose logging handlers can always be opened. *)
Definition handlers_open (env : environment) : Prop :=
  (forall f n, env_file_handler env f n = None)
  /\ (forall b, env_attach_handler env b = None).

Lemma normalize_maxsize_int a (c : config) :
  exists z, int_value (cfg_get (normalize a c) "logging" "maxsize") = Some z.
Proof.
  destruct (normalize_typed a c) as [Hint _].
  assert (("logging", "maxsize") ∈ int_options) as Hin
    by (unfold int_options; rewrite !elem_of_cons; tauto).
  specialize (Hint _ Hin). cbn [fst snd] in Hint.
  destruct (cfg_get (normalize a c) "logging" "maxsize"); try done; by eexists.
Qed.

Definition log_to_file_doc : yaml_doc :=
  DocMapping [("logging", SecMapping [("file", PyStr "/var/log/snapraid.log");
                                      ("maxsize", PyStr "5000")])].

(** On a configuration that went through the coercions of [load_config],
    [setup_logger] returns whenever the handlers open, whatever the file
    gave for maxsize: the size handed to [max] is an integer. *)
Theorem setup_logger_after_load env a (c : config) :
  handlers_open env ->
  setup_logger env (normalize a c) = ret tt.
Proof.
  intros [Hf Ha]. unfold setup_logger, as_int.
  destruct (normalize_maxsize_int a c) as [z ->].
  destruct (truthy (cfg_get (normalize a c) "logging" "file")),
    (truthy (cfg_get (normalize a c) "apprise" "attach-log"));
    rewrite ?bind_ret_l, ?Hf, ?Ha; reflexivity.
Qed.

(** A maxsize given as the string "5000". *)
Lemma setup_logger_after_load_witness :
  setup_logger quiet_env
    (normalize demo_args (config_of demo_args log_to_file_doc)) = ret tt.
Proof.
  apply (setup_logger_after_load quiet_env demo_args
           (config_of demo_args log_to_file_doc)).
  split; reflexivity.
Defined.

(** ** Exit status 2 *)

(** An exit status of 2 is a success for diff, which returns the captured
    output, and a failure for touch, sync and scrub, which raise
    [CalledProcessError]. *)
Theorem only_diff_allows_status_2 env cfg command args p :
  env_popen env (snapraid_argv cfg command args) = inr p ->
  p_ret p = 2 ->
  result (snapraid_command env cfg command args [2]) = inr (until_eof (p_stdout p))
  /\ result (snapraid_command env cfg command args [])
     = inl (Exc (CalledProcessError 2 ("snapraid " +:+ command)))
  /\ (command = "diff" -> args = [] ->
      result (diff_stage env cfg) = inr (until_eof (p_stdout p)))
  /\ (command = "touch" -> args = [] ->
      truthy (cfg_get cfg "snapraid" "touch") = true ->
      result (touch_stage env cfg)
      = inl (Exc (CalledProcessError 2 "snapraid touch"))).
Proof.
  intros Ep H2.
  assert (result (snapraid_command env cfg command args [2])
          = inr (until_eof (p_stdout p))) as Hok.
  { rewrite (snapraid_command_ran env cfg command args [2] p Ep).
    rewrite bool_decide_eq_true_2; [done|]. right. rewrite H2. by left. }
  assert (result (snapraid_command env cfg command args [])
          = inl (Exc (CalledProcessError 2 ("snapraid " +:+ command)))) as Hbad.
  { rewrite (snapraid_command_failed env cfg command args p Ep) by (by rewrite H2).
    by rewrite H2. }
  split; [done|]. split; [done|]. split.
  - intros -> ->. unfold diff_stage. rewrite !result_bind. cbn [result log emit].
    rewrite Hok. by rewrite result_bind.
  - intros -> -> Ht. unfold touch_stage. rewrite Ht, !result_bind.
    cbn [result log emit]. by rewrite Hbad.
Qed.

(** A diff that reports differences. *)
Lemma only_diff_allows_status_2_witness :
  result (diff_stage busy_env demo_config) = inr five_removals.
Proof.
  destruct (only_diff_allows_status_2 busy_env demo_config "diff" []
              (prints five_removals 2)) as (_ & _ & H & _).
  - vm_compute. reflexivity.
  - reflexivity.
  - by apply H.
Defined.

(** ** The sections of the dictionary *)

Lemma dom_cfg_set (c : config) s o v :
  s ∈ dom c -> dom (cfg_set c s o v) = dom c.
Proof.
  intros Hs. unfold cfg_set. apply dom_insert_lookup_L. by apply elem_of_dom.
Qed.

Lemma dom_coerce_int (c : config) so :
  so.1 ∈ dom c -> dom (coerce_int c so) = dom c.
Proof.
  intros H. unfold coerce_int. destruct (isinstance_int _); [done|].
  by apply dom_cfg_set.
Qed.

Lemma dom_coerce_bool (c : config) so :
  so.1 ∈ dom c -> dom (coerce_bool c so) = dom c.
Proof.
  intros H. unfold coerce_bool. destruct (isinstance_bool _); [done|].
  by apply dom_cfg_set.
Qed.

Lemma dom_empty_config : dom empty_config = list_to_set sections.
Proof.
  apply set_eq. intros name. rewrite elem_of_dom, empty_config_lookup.
  rewrite elem_of_list_to_set. case_bool_decide; [|split; [by intros [? ?]|done]].
  split; [done | by eexists].
Qed.

Lemma sections_cfg_set (c : config) s o v :
  s ∈ sections -> dom c = list_to_set sections ->
  dom (cfg_set c s o v) = list_to_set sections.
Proof.
  intros Hs Hd. rewrite dom_cfg_set; [done|]. rewrite Hd.
  by apply elem_of_list_to_set.
Qed.

Lemma sections_coerce_int (c : config) so :
  so.1 ∈ sections -> dom c = list_to_set sections ->
  dom (coerce_int c so) = list_to_set sections.
Proof.
  intros Hs Hd. unfold coerce_int. destruct (isinstance_int _); [done|].
  by apply sections_cfg_set.
Qed.

Lemma sections_coerce_bool (c : config) so :
  so.1 ∈ sections -> dom c = list_to_set sections ->
  dom (coerce_bool c so) = list_to_set sections.
Proof.
  intros Hs Hd. unfold coerce_bool. destruct (isinstance_bool _); [done|].
  by apply sections_cfg_set.
Qed.

Lemma dom_normalize a (c : config) :
  dom c = list_to_set sections -> dom (normalize a c) = dom c.
Proof.
  intros Hd. rewrite Hd.
  unfold normalize, int_options, bool_options, scrub. cbn [foldl].
  repeat
    lazymatch goal with
    | |- dom (if ?b then _ else _) = _ => destruct b
    | |- dom (match (if ?b then _ else _) with _ => _ end) = _ => destruct b
    | |- dom (cfg_set _ _ _ _) = _ =>
        apply sections_cfg_set;
        [unfold sections; rewrite !elem_of_cons; tauto|]
    | |- dom (coerce_int _ _) = _ =>
        apply sections_coerce_int;
        [unfold sections; cbn [fst]; rewrite !elem_of_cons; tauto|]
    | |- dom (coerce_bool _ _) = _ =>
        apply sections_coerce_bool;
        [unfold sections; cbn [fst]; rewrite !elem_of_cons; tauto|]
    | |- dom c = _ => exact Hd
    end.
Qed.

(** A loaded configuration has exactly the four sections snapraid, logging,
    apprise and scrub, so every [config[section]] the script evaluates
    afterwards finds its section. *)
Theorem loaded_config_has_four_sections a d (cfg : config) :
  load_document a d = inr cfg ->
  dom cfg = list_to_set sections
  /\ forall sec, sec ∈ sections -> is_Some (cfg !! sec).
Proof.
  intros Hl.
  assert (dom cfg = list_to_set sections) as Hd.
  { destruct d as [secs|e]; [|done]. simpl in Hl.
    destruct (load_sections empty_config secs) as [e|raw] eqn:E; [done|].
    injection Hl as <-.
    assert (dom raw = list_to_set sections) as Hraw
      by (by rewrite (load_sections_dom _ _ _ E), dom_empty_config).
    by rewrite dom_normalize. }
  split; [exact Hd|]. intros sec Hs. apply elem_of_dom. rewrite Hd.
  by apply elem_of_list_to_set.
Qed.

(** The sample file names three of the four sections. *)
Lemma loaded_config_has_four_sections_witness :
  is_Some (demo_config !! "logging").
Proof.
  destruct (loaded_config_has_four_sections demo_args demo_doc demo_config)
    as [_ H].
  - vm_compute. reflexivity.
  - apply H. right. by left.
Defined.
